(** * commandParser.js: markdown command templates, includes and sandboxed
      command execution

    A shallow embedding of [server/utils/commandParser.js] and of the parts of
    the JavaScript runtime it relies on (strings as sequences of UTF-16 code
    units, [String.prototype.replace], the two regular expressions, Node's
    POSIX [path] module, the [shell-quote] tokenizer), followed by the
    properties of the specification that were checked against it. *)

From Stdlib Require Import String Ascii.
From Stdlib Require Import List NArith Bool Arith Lia.
Import ListNotations.

(* ================================================================== *)
(** * JavaScript strings *)
(* ================================================================== *)

(** A JavaScript string is a finite sequence of 16-bit code units. *)
Definition code_unit := N.
Definition jsstring := list code_unit.

(** String literals of the source, written as Rocq strings. *)
Definition js (s : string) : jsstring :=
  map (fun a => N_of_ascii a) (list_ascii_of_string s).

Module Ch.
Local Open Scope N_scope.
Definition TAB : code_unit := 9.
Definition LF : code_unit := 10.
Definition VT : code_unit := 11.
Definition FF : code_unit := 12.
Definition CR : code_unit := 13.
Definition SPACE : code_unit := 32.
Definition BANG : code_unit := 33.
Definition DQ : code_unit := 34.
Definition HASH : code_unit := 35.
Definition DOLLAR : code_unit := 36.
Definition AMP : code_unit := 38.
Definition SQ : code_unit := 39.
Definition LPAREN : code_unit := 40.
Definition RPAREN : code_unit := 41.
Definition STAR : code_unit := 42.
Definition MINUS : code_unit := 45.
Definition DOT : code_unit := 46.
Definition SLASH : code_unit := 47.
Definition SEMI : code_unit := 59.
Definition LT : code_unit := 60.
Definition GT : code_unit := 62.
Definition QUESTION : code_unit := 63.
Definition AT : code_unit := 64.
Definition LBRACKET : code_unit := 91.
Definition BACKSLASH : code_unit := 92.
Definition RBRACKET : code_unit := 93.
Definition UNDERSCORE : code_unit := 95.
Definition BACKTICK : code_unit := 96.
Definition LBRACE : code_unit := 123.
Definition PIPE : code_unit := 124.
Definition RBRACE : code_unit := 125.
Definition DEL : code_unit := 127.
End Ch.

(** Membership of a code unit in a finite character class. *)
Definition in_class (c : code_unit) (cls : list code_unit) : bool :=
  existsb (N.eqb c) cls.

(** ECMAScript LineTerminator: LF, CR, U+2028, U+2029. *)
Definition isLineTerminator (c : code_unit) : bool :=
  in_class c [10; 13; 8232; 8233]%N.

(** ECMAScript WhiteSpace and LineTerminator: the class [\s] of regular
    expressions, also what [String.prototype.trim] strips. *)
Definition isWhiteSpace (c : code_unit) : bool :=
  in_class c [9; 10; 11; 12; 13; 32; 160; 5760; 8232; 8233; 8239; 8287;
              12288; 65279]%N
  || ((8192 <=? c)%N && (c <=? 8202)%N).

Fixpoint str_eqb (a b : jsstring) : bool :=
  match a, b with
  | [], [] => true
  | x :: a', y :: b' => N.eqb x y && str_eqb a' b'
  | _, _ => false
  end.

(** [!s]: the empty string is the only falsy string. *)
Definition is_empty (s : jsstring) : bool :=
  match s with [] => true | _ :: _ => false end.

(** [s.startsWith(p)] *)
Fixpoint startsWith (p s : jsstring) : bool :=
  match p, s with
  | [], _ => true
  | x :: p', y :: s' => N.eqb x y && startsWith p' s'
  | _ :: _, [] => false
  end.

Fixpoint dropWhile (f : code_unit -> bool) (s : jsstring) : jsstring :=
  match s with
  | [] => []
  | c :: t => if f c then dropWhile f t else s
  end.

Fixpoint takeWhile (f : code_unit -> bool) (s : jsstring) : jsstring :=
  match s with
  | [] => []
  | c :: t => if f c then c :: takeWhile f t else []
  end.

(** [s.trim()] *)
Definition trim (s : jsstring) : jsstring :=
  rev (dropWhile isWhiteSpace (rev (dropWhile isWhiteSpace s))).

(** [parts.join(sep)] *)
Fixpoint join (sep : jsstring) (parts : list jsstring) : jsstring :=
  match parts with
  | [] => []
  | [p] => p
  | p :: rest => p ++ sep ++ join sep rest
  end.

(** The first occurrence of [pat] in [s], as the text before it and the text
    after it ([s.indexOf(pat)] and the two slices around the match). *)
Fixpoint find_first (pat s : jsstring) : option (jsstring * jsstring) :=
  if startsWith pat s then Some ([], skipn (length pat) s)
  else match s with
       | [] => None
       | c :: t =>
           match find_first pat t with
           | Some (b, a) => Some (c :: b, a)
           | None => None
           end
       end.

(** GetSubstitution of ECMA-262 for a match without capture groups: in the
    replacement text [$$] is a dollar sign, [$&] the matched text, [$`] the
    text before the match, [$'] the text after it; any other [$] stands for
    itself (there is no group for [$1] .. [$99] to refer to). *)
Fixpoint GetSubstitution (matched before after repl : jsstring) : jsstring :=
  match repl with
  | [] => []
  | c :: r =>
      if N.eqb c Ch.DOLLAR then
        match r with
        | [] => [c]
        | d :: r' =>
            if N.eqb d Ch.DOLLAR then
              Ch.DOLLAR :: GetSubstitution matched before after r'
            else if N.eqb d Ch.AMP then
              matched ++ GetSubstitution matched before after r'
            else if N.eqb d Ch.BACKTICK then
              before ++ GetSubstitution matched before after r'
            else if N.eqb d Ch.SQ then
              after ++ GetSubstitution matched before after r'
            else c :: GetSubstitution matched before after r
        end
      else c :: GetSubstitution matched before after r
  end.

(** [s.replace(pat, repl)] with a string pattern: only the first occurrence
    is replaced, and the replacement text goes through GetSubstitution. *)
Definition replace (s pat repl : jsstring) : jsstring :=
  match find_first pat s with
  | None => s
  | Some (b, a) => b ++ GetSubstitution pat b a repl ++ a
  end.

(** [s.replace(/lit/g, repl)] for a regular expression that matches the
    non-empty literal text [lit] and has no groups: every occurrence, found
    left to right without overlap in the original string, is replaced.
    [before_rev] is the text already passed, reversed; [skip] counts the code
    units of the current match still to be passed. *)
Fixpoint replace_global (lit repl before_rev : jsstring) (skip : nat)
    (s : jsstring) : jsstring :=
  match s with
  | [] => []
  | c :: t =>
      match skip with
      | S k => replace_global lit repl (c :: before_rev) k t
      | O =>
          if startsWith lit s then
            GetSubstitution lit (rev before_rev) (skipn (length lit) s) repl
              ++ replace_global lit repl (c :: before_rev) (length lit - 1) t
          else c :: replace_global lit repl (c :: before_rev) 0 t
      end
  end.

Definition replaceAll (s lit repl : jsstring) : jsstring :=
  replace_global lit repl [] 0 s.

(** Decimal digit of a positional placeholder, [1] .. [9]. *)
Definition digit (i : nat) : code_unit := (48 + N.of_nat i)%N.

(** The string iterator behind [[...s]]: it yields code points, so a high
    surrogate followed by a low surrogate is one two-unit element and every
    other code unit is an element of its own. *)
Definition isHighSurrogate (c : code_unit) : bool :=
  ((55296 <=? c) && (c <=? 56319))%N.
Definition isLowSurrogate (c : code_unit) : bool :=
  ((56320 <=? c) && (c <=? 57343))%N.

Fixpoint spread (s : jsstring) : list jsstring :=
  match s with
  | [] => []
  | c :: rest =>
      match rest with
      | d :: rest' =>
          if isHighSurrogate c && isLowSurrogate d
          then [c; d] :: spread rest'
          else [c] :: spread rest
      | [] => [[c]]
      end
  end.

(** [ch.charCodeAt(0)]; NaN (no code unit) on the empty string. *)
Definition charCodeAt0 (ch : jsstring) : option code_unit := hd_error ch.

(* ================================================================== *)
(** * Node's [path] module (POSIX flavour) *)
(* ================================================================== *)

(** [path] is part of the Node runtime, not of the repository.  It is
    modelled at the level of path segments, the way its documentation
    describes it: a path is cut at every [/], the segments [""] and ["."] are
    dropped, [".."] removes the segment before it, and a relative path is the
    way up from one normalized absolute path to the common ancestor followed
    by the way down to the other. *)
Module Path.

Definition sep : jsstring := [Ch.SLASH].
Definition dot : jsstring := [Ch.DOT].
Definition dotdot : jsstring := [Ch.DOT; Ch.DOT].

(** [path.isAbsolute(p)] *)
Definition isAbsolute (p : jsstring) : bool :=
  match p with
  | c :: _ => N.eqb c Ch.SLASH
  | [] => false
  end.

(** [p.split('/')] *)
Fixpoint split (p : jsstring) : list jsstring :=
  match p with
  | [] => [[]]
  | c :: t =>
      if N.eqb c Ch.SLASH then [] :: split t
      else match split t with
           | seg :: segs => (c :: seg) :: segs
           | [] => [[c]]
           end
  end.

(** One segment of [normalizeString]; [stack] holds the segments kept so
    far, the last one first. *)
Definition norm_step (allowAboveRoot : bool) (stack : list jsstring)
    (seg : jsstring) : list jsstring :=
  if is_empty seg || str_eqb seg dot then stack
  else if str_eqb seg dotdot then
    match stack with
    | [] => if allowAboveRoot then [dotdot] else []
    | top :: below =>
        if str_eqb top dotdot
        then (if allowAboveRoot then dotdot :: stack else stack)
        else below
    end
  else seg :: stack.

Definition normalize_segments (allowAboveRoot : bool) (p : jsstring)
    : list jsstring :=
  rev (fold_left (norm_step allowAboveRoot) (split p) []).

(** [normalizeString(path, allowAboveRoot, '/', isPosixPathSeparator)] *)
Definition normalizeString (p : jsstring) (allowAboveRoot : bool)
    : jsstring :=
  join sep (normalize_segments allowAboveRoot p).

Section Resolve.
(** [process.cwd()] *)
Variable cwd : jsstring.

(** The loop of [path.resolve]: the arguments are visited from the last
    one to the first, then the working directory, until an absolute one
    has been prepended; empty arguments are skipped. *)
Fixpoint resolve_loop (args_rev : list jsstring) (resolvedPath : jsstring)
    : jsstring * bool :=
  match args_rev with
  | [] =>
      if is_empty cwd then (resolvedPath, false)
      else (cwd ++ sep ++ resolvedPath, isAbsolute cwd)
  | p :: rest =>
      if is_empty p then resolve_loop rest resolvedPath
      else if isAbsolute p then (p ++ sep ++ resolvedPath, true)
      else resolve_loop rest (p ++ sep ++ resolvedPath)
  end.

(** [path.resolve(...args)] *)
Definition resolve (args : list jsstring) : jsstring :=
  let (resolvedPath, resolvedAbsolute) := resolve_loop (rev args) [] in
  let n := normalizeString resolvedPath (negb resolvedAbsolute) in
  if resolvedAbsolute then sep ++ n
  else if is_empty n then dot else n.

(** The segments of a resolved path. *)
Definition segments (p : jsstring) : list jsstring :=
  filter (fun s => negb (is_empty s)) (split p).

Fixpoint strip_common (f t : list jsstring)
    : list jsstring * list jsstring :=
  match f, t with
  | x :: f', y :: t' =>
      if str_eqb x y then strip_common f' t' else (f, t)
  | _, _ => (f, t)
  end.

(** [path.relative(from, to)] *)
Definition relative (from to : jsstring) : jsstring :=
  if str_eqb from to then []
  else
    let from' := resolve [from] in
    let to' := resolve [to] in
    if str_eqb from' to' then []
    else
      let (up, down) := strip_common (segments from') (segments to') in
      join sep (map (fun _ => dotdot) up ++ down).
End Resolve.

(** [path.basename(p)]: trailing slashes are ignored, then everything up
    to the last remaining slash is dropped. *)
Definition basename (p : jsstring) : jsstring :=
  let not_slash := fun c => negb (N.eqb c Ch.SLASH) in
  rev (takeWhile not_slash (dropWhile (fun c => N.eqb c Ch.SLASH) (rev p))).

End Path.

(* ================================================================== *)
(** * Errors and results *)
(* ================================================================== *)

(** A thrown JavaScript error object: its [message], and the [code] and
    [killed] properties that the runtime sets on file-system and child-process
    errors and that the handlers of this file inspect. *)
Record js_error := mkError {
  message : jsstring;
  code : option jsstring;
  killed : bool
}.

(** [new Error(msg)] *)
Definition Error (msg : jsstring) : js_error := mkError msg None false.

(** A call either returns a value or throws. *)
Inductive completion (A : Type) : Type :=
| Ok (a : A)
| Throw (e : js_error).
Arguments Ok {A} a.
Arguments Throw {A} e.

Definition bind {A B : Type} (r : completion A) (k : A -> completion B) : completion B :=
  match r with
  | Ok a => k a
  | Throw e => Throw e
  end.

Notation "x <- r ;; k" := (bind r (fun x => k))
  (at level 61, r at next level, right associativity).

(** [try { body } catch (error) { throw handler(error) }] *)
Definition try_catch {A : Type} (body : completion A)
    (handler : js_error -> js_error) : completion A :=
  match body with
  | Ok a => Ok a
  | Throw e => Throw (handler e)
  end.

(* ================================================================== *)
(** * The [shell-quote] tokenizer *)
(* ================================================================== *)

(** Modelled from the spec: [parse] of the npm package [shell-quote], which
    the repository imports and does not contain.  The specification asks for
    a tokenizer with shell-style quoting rules (a quoted string containing
    spaces forms one token) that classifies the shell operators ([&&], [||],
    [|], [;], subshell, redirection) and runs nothing; the model follows the
    package's algorithm: a first pass cuts the line into operator chunks and
    word chunks, a second pass scans each word for quotes, backslashes,
    variables, globs and comments.  No environment is passed, so every
    variable expands to the empty text, and a lone [$] stays. *)
Module ShellQuote.

Inductive token : Type :=
| Str (s : jsstring)            (* a plain string *)
| Op (op : jsstring)            (* { op } *)
| Glob (pattern : jsstring)     (* { op: 'glob', pattern } *)
| Comment (text : jsstring).    (* { comment } *)

(** The multi-character control operators, in the order the expression
    tries them, then the single-character ones. *)
Definition CONTROL_LONG : list jsstring :=
  map js ["||"; "&&"; ";;"; "|&"; "<("; "<<<"; ">>"; ">&"; "<&"]%string.
Definition CONTROL_CHARS : jsstring := js "&;()|<>".
Definition META : jsstring := js "|&;()<> " ++ [Ch.TAB].

(** The control operator at the start of [s], if any. *)
Definition match_control (s : jsstring) : option jsstring :=
  match find (fun op => startsWith op s) CONTROL_LONG with
  | Some op => Some op
  | None =>
      match s with
      | c :: _ => if in_class c CONTROL_CHARS then Some [c] else None
      | [] => None
      end
  end.

(** [controlRE.test(s)]: the whole of [s] is one control operator. *)
Definition controlRE_test (s : jsstring) : bool :=
  existsb (str_eqb s) CONTROL_LONG
  || match s with
     | [c] => in_class c CONTROL_CHARS
     | _ => false
     end.

(** The body of a quoted string after its opening quote [q]: the number of
    code units up to and including the closing quote.  The expression is
    lazy and prefers to read backslash-quote as one escaped unit; when no
    closing quote follows, it falls back to the backslash being ordinary
    and that quote closing the string. *)
Fixpoint quoted_len (q : code_unit) (t : jsstring) : option nat :=
  match t with
  | [] => None
  | c :: r =>
      if N.eqb c q then Some 1
      else if N.eqb c Ch.BACKSLASH then
        match r with
        | d :: r' =>
            if N.eqb d q then
              match quoted_len q r' with
              | Some n => Some (2 + n)
              | None => Some 2
              end
            else option_map S (quoted_len q r)
        | [] => None
        end
      else option_map S (quoted_len q r)
  end.

(** A character of a bare word: not white space, not a quote, not one of
    META. *)
Definition bare (c : code_unit) : bool :=
  negb (isWhiteSpace c || N.eqb c Ch.SQ || N.eqb c Ch.DQ || in_class c META).

(** The length of the longest word (bare words and quoted strings, glued)
    at the start of [s]; [0] when there is none.  Every round consumes at
    least one code unit, so [fuel] of the length of [s] is never used up. *)
Fixpoint word_span (fuel : nat) (s : jsstring) : nat :=
  match fuel with
  | O => 0
  | S f =>
      match s with
      | [] => 0
      | c :: t =>
          let escaped :=
            N.eqb c Ch.BACKSLASH &&
            match t with
            | d :: _ => in_class d META || N.eqb d Ch.SQ || N.eqb d Ch.DQ
            | [] => false
            end in
          if escaped then 2 + word_span f (tl t)
          else if bare c then 1 + word_span f t
          else if N.eqb c Ch.DQ || N.eqb c Ch.SQ then
            match quoted_len c t with
            | Some n => 1 + n + word_span f (skipn n t)
            | None => 0
            end
          else 0
      end
  end.

(** The chunks of the line, each with the input from its first code unit
    on; [skip] counts the code units of the current chunk still to pass. *)
Fixpoint chunks (skip : nat) (s : jsstring) : list (jsstring * jsstring) :=
  match s with
  | [] => []
  | _ :: t =>
      match skip with
      | S k => chunks k t
      | O =>
          match match_control s with
          | Some op => (op, s) :: chunks (length op - 1) t
          | None =>
              match word_span (length s) s with
              | O => chunks 0 t
              | S n => (firstn (S n) s, s) :: chunks n t
              end
          end
      end
  end.

(** [getVar(env, '', key)] with the empty environment. *)
Definition getVar (key : jsstring) : jsstring :=
  if is_empty key then [Ch.DOLLAR] else [].

(** [\w] *)
Definition isWordChar (c : code_unit) : bool :=
  (((48 <=? c) && (c <=? 57)) || ((65 <=? c) && (c <=? 90))
   || ((97 <=? c) && (c <=? 122)) || (c =? 95))%N.

Fixpoint index_where (f : code_unit -> bool) (s : jsstring) : option nat :=
  match s with
  | [] => None
  | c :: t => if f c then Some 0 else option_map S (index_where f t)
  end.

(** [s.slice(a, b)] for [a <= b] *)
Definition slice (s : jsstring) (a b : nat) : jsstring :=
  firstn (b - a) (skipn a s).

(** [parseEnvVar()]: [i] is the index of the dollar sign; the result is
    the text of the variable and the index the scanner continues after. *)
Definition parseEnvVar (s : jsstring) (i : nat) : completion (jsstring * nat) :=
  let i := i + 1 in
  match nth_error s i with
  | None => Ok (getVar [], length s)
  | Some char =>
      if N.eqb char Ch.LBRACE then
        let i := i + 1 in
        match nth_error s i with
        | Some c' =>
            if N.eqb c' Ch.RBRACE then
              Throw (Error (js "Bad substitution: " ++ slice s (i - 2) (i + 1)))
            else
              match index_where (N.eqb Ch.RBRACE) (skipn i s) with
              | None => Throw (Error (js "Bad substitution: " ++ skipn i s))
              | Some k => Ok (getVar (slice s i (i + k)), i + k)
              end
        | None => Throw (Error (js "Bad substitution: " ++ skipn i s))
        end
      else if in_class char (js "*@#?$!_-") then Ok (getVar [char], i + 1)
      else
        let slicedFromI := skipn i s in
        match index_where (fun c => negb (isWordChar c)) slicedFromI with
        | None => Ok (getVar slicedFromI, length s)
        | Some k => Ok (getVar (firstn k slicedFromI), i + k - 1)
        end
  end.

(** The scanner of one word chunk [s]; [from] is the input from the first
    code unit of the chunk on.  It returns the tokens of the chunk and
    whether a comment started.  The index grows in every round, so [fuel]
    above the length of [s] is never used up. *)
Fixpoint scan (fuel : nat) (from s : jsstring) (i : nat)
    (quote : option code_unit) (esc : bool) (out : jsstring) (isGlob : bool)
    : completion (list token * bool) :=
  match fuel with
  | O => Ok ([if isGlob then Glob out else Str out], false)
  | S f =>
      match nth_error s i with
      | None => Ok ([if isGlob then Glob out else Str out], false)
      | Some c =>
          let isGlob :=
            isGlob ||
            (match quote with None => true | Some _ => false end
             && (N.eqb c Ch.STAR || N.eqb c Ch.QUESTION)) in
          if esc then scan f from s (i + 1) quote false (out ++ [c]) isGlob
          else
            match quote with
            | Some q =>
                if N.eqb c q then scan f from s (i + 1) None false out isGlob
                else if N.eqb q Ch.SQ then
                  scan f from s (i + 1) quote false (out ++ [c]) isGlob
                else if N.eqb c Ch.BACKSLASH then
                  let out' :=
                    match nth_error s (i + 1) with
                    | Some c' =>
                        if N.eqb c' Ch.DQ || N.eqb c' Ch.BACKSLASH
                           || N.eqb c' Ch.DOLLAR
                        then out ++ [c']
                        else out ++ [Ch.BACKSLASH; c']
                    | None => out ++ [Ch.BACKSLASH]
                    end in
                  scan f from s (i + 2) quote false out' isGlob
                else if N.eqb c Ch.DOLLAR then
                  match parseEnvVar s i with
                  | Throw e => Throw e
                  | Ok (v, i') =>
                      scan f from s (i' + 1) quote false (out ++ v) isGlob
                  end
                else scan f from s (i + 1) quote false (out ++ [c]) isGlob
            | None =>
                if N.eqb c Ch.DQ || N.eqb c Ch.SQ then
                  scan f from s (i + 1) (Some c) false out isGlob
                else if controlRE_test [c] then Ok ([Op s], false)
                else if N.eqb c Ch.HASH then
                  Ok ((if is_empty out then [] else [Str out])
                        ++ [Comment (skipn (i + 1) from)], true)
                else if N.eqb c Ch.BACKSLASH then
                  scan f from s (i + 1) quote true out isGlob
                else if N.eqb c Ch.DOLLAR then
                  match parseEnvVar s i with
                  | Throw e => Throw e
                  | Ok (v, i') =>
                      scan f from s (i' + 1) quote false (out ++ v) isGlob
                  end
                else scan f from s (i + 1) quote false (out ++ [c]) isGlob
            end
      end
  end.

(** The map over the chunks and the flattening of its results; once a
    comment has started the remaining chunks yield nothing. *)
Fixpoint parse_chunks (cs : list (jsstring * jsstring)) (commented : bool)
    : completion (list token) :=
  match cs with
  | [] => Ok []
  | (s, from) :: rest =>
      if commented then parse_chunks rest commented
      else if controlRE_test s then
        ts <- parse_chunks rest commented ;; Ok (Op s :: ts)
      else
        r <- scan (S (length s)) from s 0 None false [] false ;;
        ts <- parse_chunks rest (snd r) ;;
        Ok (fst r ++ ts)
  end.

(** [parse(s)] *)
Definition parse (s : jsstring) : completion (list token) :=
  parse_chunks (chunks 0 s) false.

(** The [op] property of a token, [undefined] on strings and comments. *)
Definition token_op (t : token) : option jsstring :=
  match t with
  | Op op => Some op
  | Glob _ => Some (js "glob")
  | Str _ | Comment _ => None
  end.

End ShellQuote.

(* ================================================================== *)
(** * The two marker expressions *)
(* ================================================================== *)

Definition notWhiteSpace (c : code_unit) : bool := negb (isWhiteSpace c).

(** [[...content.matchAll(/(?:^|\s)@([^\s]+)/gm)]]: each match with its
    whole text and its group.  A match starts at an [@] that opens a line
    (the start of the text, or after a line terminator) or at a white-space
    code unit followed by [@]; the name is the longest run of code units
    that are not white space, and is not empty.  [prev] is the code unit
    before the current one, [skip] the code units of the current match still
    to pass. *)
Fixpoint include_matches (prev : option code_unit) (skip : nat)
    (s : jsstring) : list (jsstring * jsstring) :=
  match s with
  | [] => []
  | c :: t =>
      match skip with
      | S k => include_matches (Some c) k t
      | O =>
          let line_start :=
            match prev with None => true | Some p => isLineTerminator p end in
          let name1 :=
            if line_start && N.eqb c Ch.AT then takeWhile notWhiteSpace t
            else [] in
          match name1 with
          | _ :: _ =>
              (c :: name1, name1) :: include_matches (Some c) (length name1) t
          | [] =>
              let name2 :=
                match t with
                | d :: t' =>
                    if isWhiteSpace c && N.eqb d Ch.AT
                    then takeWhile notWhiteSpace t' else []
                | [] => []
                end in
              match name2 with
              | _ :: _ =>
                  (c :: Ch.AT :: name2, name2)
                    :: include_matches (Some c) (S (length name2)) t
              | [] => include_matches (Some c) 0 t
              end
          end
      end
  end.

(** The group [(.+?)] before the lookahead [(?=\n|$)]: the code units up to
    the first line terminator; there must be one at least, and what stops
    them must be a line feed or the end of the text. *)
Definition command_line (t : jsstring) : option jsstring :=
  let line := takeWhile (fun c => negb (isLineTerminator c)) t in
  match line with
  | [] => None
  | _ :: _ =>
      match skipn (length line) t with
      | [] => Some line
      | c :: _ => if N.eqb c Ch.LF then Some line else None
      end
  end.

(** [[...content.matchAll(/(?:^|\n)!(.+?)(?=\n|$)/g)]]: the expression has
    no [m] flag, so a match starts at a [!] that opens the text or at a line
    feed followed by [!]. *)
Fixpoint command_matches (prev : option code_unit) (skip : nat)
    (s : jsstring) : list (jsstring * jsstring) :=
  match s with
  | [] => []
  | c :: t =>
      match skip with
      | S k => command_matches (Some c) k t
      | O =>
          let at_start := match prev with None => true | Some _ => false end in
          let m1 :=
            if at_start && N.eqb c Ch.BANG then command_line t else None in
          match m1 with
          | Some line =>
              (c :: line, line) :: command_matches (Some c) (length line) t
          | None =>
              let m2 :=
                match t with
                | d :: t' =>
                    if N.eqb c Ch.LF && N.eqb d Ch.BANG
                    then command_line t' else None
                | [] => None
                end in
              match m2 with
              | Some line =>
                  (c :: Ch.BANG :: line, line)
                    :: command_matches (Some c) (S (length line)) t
              | None => command_matches (Some c) 0 t
              end
          end
      end
  end.

(** [for (const x of items) { acc = step(acc, x) }], where a step may throw. *)
Fixpoint for_of {A S : Type} (step : S -> A -> completion S) (items : list A)
    (acc : S) : completion S :=
  match items with
  | [] => Ok acc
  | x :: rest => acc' <- step acc x ;; for_of step rest acc'
  end.

(* ================================================================== *)
(** * commandParser.js *)
(* ================================================================== *)

(** Configuration *)
Definition MAX_INCLUDE_DEPTH : nat := 3.
Definition BASH_TIMEOUT : N := 30000.
Definition BASH_COMMAND_ALLOWLIST : list jsstring :=
  map js ["echo"; "ls"; "pwd"; "date"; "whoami"; "git"; "npm"; "node"; "cat";
          "grep"; "find"; "task-master"]%string.

(** The [args] parameter of [replaceArguments]: a string or an array. *)
Inductive arguments : Type :=
| ArgString (s : jsstring)
| ArgArray (a : list jsstring).

(** [Array.isArray(args) ? args : (args ? [args] : [])]; the empty string is
    falsy. *)
Definition argsArray_of (args : arguments) : list jsstring :=
  match args with
  | ArgArray a => a
  | ArgString s => if is_empty s then [] else [s]
  end.

(** The regular expression [new RegExp(`\\$${i}`, 'g')] matches the text
    [$i]. *)
Definition placeholder (i : nat) : jsstring := [Ch.DOLLAR; digit i].

(** One round of the loop over [i]; [argsArray[i - 1] || ''] *)
Definition replacePositional (argsArray : list jsstring) (result : jsstring)
    (i : nat) : jsstring :=
  let value := nth (i - 1) argsArray [] in
  replaceAll result (placeholder i) value.

Definition replaceArguments (content : jsstring) (args : arguments)
    : jsstring :=
  if is_empty content then content
  else
    let argsArray := argsArray_of args in
    let allArgs := join (js " ") argsArray in
    let result := replaceAll content (js "$ARGUMENTS") allArgs in
    fold_left (replacePositional argsArray) (seq 1 9) result.

(** The value of [validateCommand]. *)
Record ValidationResult := mkValidation {
  allowed : bool;
  command : jsstring;
  args : list jsstring;
  error : option jsstring
}.

(** [typeof token === 'object' && token.op] *)
Definition isOperator (t : ShellQuote.token) : bool :=
  match ShellQuote.token_op t with
  | Some op => negb (is_empty op)
  | None => false
  end.

(** [parsed.filter(token => typeof token === 'string')] *)
Fixpoint stringTokens (parsed : list ShellQuote.token) : list jsstring :=
  match parsed with
  | [] => []
  | ShellQuote.Str s :: rest => s :: stringTokens rest
  | _ :: rest => stringTokens rest
  end.

(** [/[;&|`$()<>{}[\]\\]/.test(arg)] *)
Definition dangerousPattern (arg : jsstring) : bool :=
  existsb (fun c => in_class c (js ";&|`$()<>{}[]\")) arg.

(** [BASH_COMMAND_ALLOWLIST.includes(name)] *)
Definition includes (l : list jsstring) (name : jsstring) : bool :=
  existsb (str_eqb name) l.

Definition validateCommand (commandString : jsstring)
    : completion ValidationResult :=
  let trimmedCommand := trim commandString in
  if is_empty trimmedCommand then
    Ok (mkValidation false [] [] (Some (js "Empty command")))
  else
    parsed <- ShellQuote.parse trimmedCommand ;;
    let hasOperators := existsb isOperator parsed in
    if hasOperators then
      Ok (mkValidation false [] []
            (Some (js "Shell operators (&&, ||, |, ;, etc.) are not allowed")))
    else
      match stringTokens parsed with
      | [] => Ok (mkValidation false [] [] (Some (js "No valid command found")))
      | command :: args =>
          let commandName := Path.basename command in
          let isAllowed := includes BASH_COMMAND_ALLOWLIST commandName in
          if negb isAllowed then
            Ok (mkValidation false commandName args
                  (Some (js "Command '" ++ commandName
                           ++ js "' is not in the allowlist")))
          else
            match find dangerousPattern args with
            | Some arg =>
                Ok (mkValidation false commandName args
                      (Some (js "Argument contains dangerous characters: "
                               ++ arg)))
            | None => Ok (mkValidation true commandName args None)
            end
      end.

(** @deprecated, kept for backward compatibility. *)
Definition isBashCommandAllowed (command : jsstring) : completion bool :=
  result <- validateCommand command ;;
  Ok (allowed result).

Definition keepCode (code : code_unit) : bool :=
  (N.eqb code 9 || N.eqb code 10 || N.eqb code 13
   || ((32 <=? code) && negb (N.eqb code 127)))%N.

(** The callback of the filter: [ch] is one element of the spread string. *)
Definition keepElement (ch : jsstring) : bool :=
  match charCodeAt0 ch with
  | Some code => keepCode code
  | None => false
  end.

Definition sanitizeOutput (output : jsstring) : jsstring :=
  if is_empty output then []
  else concat (filter keepElement (spread output)).

Section Engine.

(** [process.cwd()] *)
Variable cwd : jsstring.

(** [fs.readFile(path, 'utf-8')]: the content of the file, or the error
    the promise is rejected with. *)
Variable readFile : jsstring -> completion jsstring.

Definition isPathSafe (filePath basePath : jsstring) : bool :=
  let resolvedPath := Path.resolve cwd [basePath; filePath] in
  let resolvedBase := Path.resolve cwd [basePath] in
  let relative := Path.relative cwd resolvedBase resolvedPath in
  negb (str_eqb relative [])
  && negb (startsWith (js "..") relative)
  && negb (Path.isAbsolute relative).

Definition depthExceeded : js_error :=
  Error (js "Maximum include depth (" ++ [digit MAX_INCLUDE_DEPTH]
           ++ js ") exceeded").

(** The handler of the [catch] around the read and the recursive call. *)
Definition includeHandler (filename : jsstring) (error : js_error)
    : js_error :=
  match code error with
  | Some c =>
      if str_eqb c (js "ENOENT")
      then Error (js "File not found: " ++ filename)
      else error
  | None => error
  end.

(** The body of the loop over the matches: [recurse] is the call of
    [processFileIncludes] at [depth + 1]. *)
Definition includeMarker (recurse : jsstring -> completion jsstring)
    (basePath : jsstring) (result : jsstring) (m : jsstring * jsstring)
    : completion jsstring :=
  let (fullMatch, filename) := m in
  if negb (isPathSafe filename basePath) then
    Throw (Error (js "Invalid file path (directory traversal detected): "
                    ++ filename))
  else
    try_catch
      (let filePath := Path.resolve cwd [basePath; filename] in
       fileContent <- readFile filePath ;;
       processedContent <- recurse fileContent ;;
       Ok (replace result fullMatch
             (if startsWith (js " ") fullMatch
              then js " " ++ processedContent
              else processedContent)))
      (includeHandler filename).

(** [processFileIncludes] calls itself at [depth + 1] only below the
    maximum depth, so the recursion is on the number of levels left; the
    branch for no level left is never reached from [processFileIncludes]
    (see [processFileIncludes_eq]). *)
Fixpoint includes_levels (levels : nat) (content basePath : jsstring)
    (depth : nat) {struct levels} : completion jsstring :=
  if is_empty content then Ok content
  else if MAX_INCLUDE_DEPTH <=? depth then Throw depthExceeded
  else
    match levels with
    | O => Throw depthExceeded
    | S levels' =>
        let matches := include_matches None 0 content in
        match matches with
        | [] => Ok content
        | _ :: _ =>
            for_of
              (includeMarker
                 (fun fileContent =>
                    includes_levels levels' fileContent basePath (depth + 1))
                 basePath)
              matches content
        end
    end.

Definition processFileIncludes (content basePath : jsstring) (depth : nat)
    : completion jsstring :=
  includes_levels (MAX_INCLUDE_DEPTH - depth) content basePath depth.

(** ** Command execution *)

(** The state of the machine the commands run on; running a command may
    change it. *)
Variable World : Type.

(** [process.env.PATH] and [process.env.HOME] *)
Variable env_PATH env_HOME : option jsstring.

(** The options object handed to [execFile]. *)
Record ExecOptions := mkExecOptions {
  exec_cwd : jsstring;
  exec_timeout : N;
  exec_maxBuffer : N;
  exec_shell : bool;
  exec_PATH : jsstring
}.

(** [execFileAsync(file, args, options)]: the promise resolves with the
    two output streams, or is rejected with an error whose [killed] is set
    when the runtime terminated the child at the timeout. *)
Variable execFile :
  World -> jsstring -> list jsstring -> ExecOptions
  -> completion (jsstring * jsstring) * World.

(** The [options] parameter of [processBashCommands]. *)
Record BashOptions := mkBashOptions {
  opt_cwd : option jsstring;
  opt_timeout : option N
}.

(** A value inside a template literal. *)
Definition interpolate (v : option jsstring) : jsstring :=
  match v with Some s => s | None => js "undefined" end.

Definition pathEnv : jsstring :=
  join (js ":")
    ((match env_PATH with
      | Some p => if is_empty p then [] else [p]
      | None => []
      end)
     ++ [interpolate env_HOME ++ js "/.local/bin";
         interpolate env_HOME ++ js "/.nvm/versions/node/*/bin";
         js "/usr/local/bin";
         js "/usr/bin"]).

(** The handler of the [catch] around the execution. *)
Definition bashHandler (commandString : jsstring) (error : js_error)
    : js_error :=
  if killed error then Error (js "Command timeout: " ++ commandString)
  else Error (js "Command failed: " ++ commandString ++ js " - "
                ++ message error).

(** [a || b] on strings *)
Definition or_else (a b : jsstring) : jsstring :=
  if is_empty a then b else a.

(** The options of the call of [execFile]: the defaults of
    [const { cwd = process.cwd(), timeout = BASH_TIMEOUT } = options], one
    mebibyte of output, no shell, the extended search path. *)
Definition execOptions (options : BashOptions) : ExecOptions :=
  mkExecOptions
    (match opt_cwd options with Some d => d | None => cwd end)
    (match opt_timeout options with Some t => t | None => BASH_TIMEOUT end)
    (1024 * 1024)%N false pathEnv.

(** The body of the loop over the matches. *)
Definition bashMarker (options : BashOptions) (st : jsstring * World)
    (m : jsstring * jsstring) : completion (jsstring * World) * World :=
  let (result, w) := st in
  let (fullMatch, line) := m in
  let commandString := trim line in
  match validateCommand commandString with
  | Throw e => (Throw e, w)
  | Ok validation =>
      if negb (allowed validation) then
        (Throw (Error (js "Command not allowed: " ++ commandString
                         ++ js " - " ++ interpolate (error validation))), w)
      else
        let (outcome, w') :=
          execFile w (command validation) (args validation)
            (execOptions options) in
        (try_catch
           (streams <- outcome ;;
            let output :=
              sanitizeOutput (or_else (fst streams) (or_else (snd streams) [])) in
            Ok (replace result fullMatch
                  (if startsWith [Ch.LF] fullMatch
                   then Ch.LF :: output else output), w'))
           (bashHandler commandString), w')
  end.

(** The loop over the matches, threading the state of the machine; it
    stops at the first marker that throws. *)
Fixpoint bashLoop (options : BashOptions) (matches : list (jsstring * jsstring))
    (st : jsstring * World) : completion jsstring * World :=
  match matches with
  | [] => (Ok (fst st), snd st)
  | m :: rest =>
      match bashMarker options st m with
      | (Ok st', _) => bashLoop options rest st'
      | (Throw e, w') => (Throw e, w')
      end
  end.

Definition processBashCommands (content : jsstring) (options : BashOptions)
    (w : World) : completion jsstring * World :=
  if is_empty content then (Ok content, w)
  else
    match command_matches None 0 content with
    | [] => (Ok content, w)
    | matches => bashLoop options matches (content, w)
    end.

End Engine.

Arguments bashMarker cwd {World} env_PATH env_HOME execFile options st m.
Arguments bashLoop cwd {World} env_PATH env_HOME execFile options matches st.
Arguments processBashCommands cwd {World} env_PATH env_HOME execFile
  content options w.

(* ================================================================== *)
(** * The file tree component: filtering, flattening, icons *)
(* ================================================================== *)

Module FileTree.

(** An entry of the tree with the fields these functions read: its [name],
    [path] and [type], and its [children], which may be missing. *)
#[warnings="-register-all"]
Inductive item : Type :=
| Item (name path type : jsstring) (children : option (list item)).

Definition item_path (it : item) : jsstring :=
  match it with Item _ path _ _ => path end.

Definition item_children (it : item) : option (list item) :=
  match it with Item _ _ _ children => children end.

(** [s.includes(query)] *)
Definition str_includes (s query : jsstring) : bool :=
  match find_first query s with
  | Some _ => true
  | None => false
  end.

(** [type === 'directory'] *)
Definition isDirectory (type : jsstring) : bool :=
  str_eqb type (js "directory").

Section LowerCase.

(** [String.prototype.toLowerCase] *)
Variable toLowerCase : jsstring -> jsstring.

(** The callback of the reduce in [filterFiles]: [None] when the item is
    not pushed.  The inner loop is [filterFiles] on the children. *)
Fixpoint filterItem (query : jsstring) (it : item) : option item :=
  match it with
  | Item name path type children =>
      let matchesName := str_includes (toLowerCase name) query in
      let filteredChildren :=
        if isDirectory type then
          match children with
          | Some cs =>
              (fix filterList (l : list item) : list item :=
                 match l with
                 | [] => []
                 | c :: rest =>
                     match filterItem query c with
                     | Some c' => c' :: filterList rest
                     | None => filterList rest
                     end
                 end) cs
          | None => []
          end
        else [] in
      if matchesName || negb (Nat.eqb (length filteredChildren) 0)
      then Some (Item name path type (Some filteredChildren))
      else None
  end.

Fixpoint filterFiles (items : list item) (query : jsstring) : list item :=
  match items with
  | [] => []
  | it :: rest =>
      match filterItem query it with
      | Some it' => it' :: filterFiles rest query
      | None => filterFiles rest query
      end
  end.

(** [filename.split('.').pop()?.toLowerCase()] *)
Definition extension (filename : jsstring) : jsstring :=
  toLowerCase (rev (takeWhile (fun c => negb (N.eqb c Ch.DOT)) (rev filename))).

Definition imageExtensions : list jsstring :=
  map js ["png"; "jpg"; "jpeg"; "gif"; "svg"; "webp"; "ico"; "bmp"]%string.
Definition codeExtensions : list jsstring :=
  map js ["js"; "jsx"; "ts"; "tsx"; "py"; "java"; "cpp"; "c"; "php"; "rb";
          "go"; "rs"]%string.
Definition docExtensions : list jsstring :=
  map js ["md"; "txt"; "doc"; "pdf"]%string.

Definition isImageFile (filename : jsstring) : bool :=
  includes imageExtensions (extension filename).

(** The four icons [getFileIcon] chooses from. *)
Inductive icon : Type :=
| FileCodeGreen
| FileTextBlue
| FilePurple
| FileMuted.

Definition getFileIcon (filename : jsstring) : icon :=
  let ext := extension filename in
  if includes codeExtensions ext then FileCodeGreen
  else if includes docExtensions ext then FileTextBlue
  else if includes imageExtensions ext then FilePurple
  else FileMuted.

End LowerCase.

(** [traverse] of [getAllFilePaths]: the paths in the order they are
    pushed. *)
Fixpoint traverseItem (it : item) : list jsstring :=
  match it with
  | Item _ path type children =>
      path ::
      (if isDirectory type then
         match children with
         | Some cs =>
             (fix traverse (l : list item) : list jsstring :=
                match l with
                | [] => []
                | c :: rest => traverseItem c ++ traverse rest
                end) cs
         | None => []
         end
       else [])
  end.

Fixpoint getAllFilePaths (items : list item) : list jsstring :=
  match items with
  | [] => []
  | it :: rest => traverseItem it ++ getAllFilePaths rest
  end.

End FileTree.

(* ================================================================== *)
(** * A small machine to run the engine on *)
(* ================================================================== *)

Module Example.

Definition cwd : jsstring := js "/srv/app".
Definition base : jsstring := js "/base".

(** [ENOENT] as [fs.readFile] reports it. *)
Definition ENOENT (p : jsstring) : js_error :=
  mkError (js "ENOENT: no such file or directory, open '" ++ p ++ js "'")
    (Some (js "ENOENT")) false.

(** The files of the machine: a chain [b.md], [c.md], [d.md], [e.md] of
    includes, a chain [p.md], [q.md] that ends in a file without markers,
    and [notes.txt]. *)
Definition files : list (jsstring * jsstring) :=
  [ (js "/base/b.md", js "@c.md");
    (js "/base/c.md", js "@d.md");
    (js "/base/d.md", js "done");
    (js "/base/p.md", js "P: @q.md");
    (js "/base/q.md", js "Q");
    (js "/base/notes.txt", js "done") ].

Definition readFile (p : jsstring) : completion jsstring :=
  match find (fun f => str_eqb (fst f) p) files with
  | Some f => Ok (snd f)
  | None => Throw (ENOENT p)
  end.

(** The same chain with a fifth file: [d.md] includes [e.md]. *)
Definition readFile4 (p : jsstring) : completion jsstring :=
  if str_eqb p (js "/base/d.md") then Ok (js "@e.md")
  else if str_eqb p (js "/base/e.md") then Ok (js "end")
  else readFile p.

(** The commands of the machine; its state counts the commands run.
    [echo] prints its arguments, [git] does not return before the timeout
    and is killed, [cat] exits with a failure, nothing else is installed. *)
Definition execFile (w : nat) (file : jsstring) (args : list jsstring)
    (options : ExecOptions) : completion (jsstring * jsstring) * nat :=
  if str_eqb file (js "echo") then
    (Ok (join (js " ") args ++ [Ch.LF], []), S w)
  else if str_eqb file (js "git") then
    (Throw (mkError (js "Command failed: git") None true), S w)
  else if str_eqb file (js "cat") then
    (Throw (mkError (js "Command failed: cat") (Some (js "1")) false), S w)
  else
    (Throw (mkError (js "spawn " ++ file ++ js " ENOENT")
              (Some (js "ENOENT")) false), S w).

Definition options : BashOptions := mkBashOptions None None.

(** A second machine, on which nothing but the commands of the allowlist is
    installed. *)
Definition execFileListed (w : nat) (file : jsstring) (args : list jsstring)
    (options : ExecOptions) : completion (jsstring * jsstring) * nat :=
  if includes BASH_COMMAND_ALLOWLIST file then execFile w file args options
  else (Throw (mkError (js "spawn ENOENT") (Some (js "ENOENT")) false), w).

Definition env_PATH : option jsstring := Some (js "/usr/bin:/bin").
Definition env_HOME : option jsstring := Some (js "/home/app").

End Example.

(* ================================================================== *)
(** * Vocabulary of the properties *)
(* ================================================================== *)

Module PathSpec.
Import Path.

Definition no_slash (seg : jsstring) : Prop :=
  forallb (fun c => negb (N.eqb c Ch.SLASH)) seg = true.

(** A segment that normalization keeps as it is: not empty, not [.], not
    [..], without a slash. *)
Definition plain (seg : jsstring) : Prop :=
  is_empty seg = false /\ str_eqb seg dot = false
  /\ str_eqb seg dotdot = false /\ no_slash seg.

(** The segments of the resolved base directory, the last one first. *)
Definition base_stack (cwd base : jsstring) : list jsstring :=
  fold_left (norm_step false)
    (split (fst (resolve_loop cwd [base] []))) [].
End PathSpec.

(** A text without a dollar sign. *)
Definition dollar_free (s : jsstring) : bool :=
  forallb (fun c => negb (N.eqb c Ch.DOLLAR)) s.

(* ================================================================== *)
(** * Properties *)
(* ================================================================== *)

(** ** Strings *)

Lemma str_eqb_refl (s : jsstring) : str_eqb s s = true.
Proof.
  induction s as [|c s IH]; simpl; [reflexivity|].
  now rewrite N.eqb_refl, IH.
Qed.

Lemma str_eqb_eq (a b : jsstring) : str_eqb a b = true <-> a = b.
Proof.
  split.
  - revert b; induction a as [|x a IH]; intros [|y b]; simpl; try discriminate.
    + reflexivity.
    + intros H. apply andb_true_iff in H as [Hxy Hab].
      apply N.eqb_eq in Hxy. f_equal; auto.
  - intros ->. apply str_eqb_refl.
Qed.

Lemma str_eqb_neq (a b : jsstring) : str_eqb a b = false <-> a <> b.
Proof.
  split.
  - intros H E. apply str_eqb_eq in E. congruence.
  - intros H. destruct (str_eqb a b) eqn:E; [|reflexivity].
    apply str_eqb_eq in E. contradiction.
Qed.

Lemma startsWith_app (p s : jsstring) : startsWith p (p ++ s) = true.
Proof.
  induction p as [|c p IH]; simpl; [reflexivity|].
  now rewrite N.eqb_refl, IH.
Qed.

Lemma bind_Ok {A B : Type} (a : A) (k : A -> completion B) :
  bind (Ok a) k = k a.
Proof. reflexivity. Qed.

Lemma bind_Throw {A B : Type} (e : js_error) (k : A -> completion B) :
  bind (Throw e) k = Throw e.
Proof. reflexivity. Qed.

(** ** The loop over the markers stops at the first one that throws *)

Lemma for_of_app {A S : Type} (step : S -> A -> completion S)
    (xs ys : list A) (acc : S) :
  for_of step (xs ++ ys) acc = (acc' <- for_of step xs acc ;; for_of step ys acc').
Proof.
  revert acc; induction xs as [|x xs IH]; intros acc; simpl; [reflexivity|].
  destruct (step acc x); simpl; auto.
Qed.

Lemma for_of_abort {A S : Type} (step : S -> A -> completion S)
    (before after : list A) (m : A) (acc acc' : S) (e : js_error) :
  for_of step before acc = Ok acc' ->
  step acc' m = Throw e ->
  for_of step (before ++ m :: after) acc = Throw e.
Proof.
  intros Hb Hm. rewrite for_of_app, Hb. simpl. now rewrite Hm.
Qed.

(** ** Output sanitizing *)

Lemma surrogates_kept (c : code_unit) :
  isHighSurrogate c = true \/ isLowSurrogate c = true -> keepCode c = true.
Proof.
  unfold isHighSurrogate, isLowSurrogate, keepCode.
  intros [H|H]; apply andb_true_iff in H as [H1 H2];
    apply N.leb_le in H1; apply N.leb_le in H2;
    assert (E1 : (32 <=? c)%N = true) by (apply N.leb_le; lia);
    assert (E2 : N.eqb c 127 = false) by (apply N.eqb_neq; lia);
    rewrite E1, E2; simpl; apply orb_true_r.
Qed.

Lemma spread_filter_bounded (n : nat) (s : jsstring) :
  length s <= n ->
  concat (filter keepElement (spread s)) = filter keepCode s.
Proof.
  revert s; induction n as [|n IH]; intros s Hn.
  - destruct s; [reflexivity | simpl in Hn; lia].
  - destruct s as [|c [|d rest]]; [reflexivity| |].
    + simpl. unfold keepElement; simpl. destruct (keepCode c); reflexivity.
    + assert (Hlen : length rest <= n /\ length (d :: rest) <= n)
        by (simpl in *; lia).
      destruct Hlen as [Hr Hdr].
      change (spread (c :: d :: rest))
        with (if isHighSurrogate c && isLowSurrogate d
              then [c; d] :: spread rest else [c] :: spread (d :: rest)).
      destruct (isHighSurrogate c && isLowSurrogate d) eqn:E.
      * apply andb_true_iff in E as [Hc Hd].
        change (filter keepElement ([c; d] :: spread rest))
          with (if keepCode c then [c; d] :: filter keepElement (spread rest)
                else filter keepElement (spread rest)).
        change (filter keepCode (c :: d :: rest))
          with (if keepCode c
                then c :: (if keepCode d then d :: filter keepCode rest
                           else filter keepCode rest)
                else (if keepCode d then d :: filter keepCode rest
                      else filter keepCode rest)).
        rewrite (surrogates_kept c (or_introl Hc)).
        rewrite (surrogates_kept d (or_intror Hd)).
        cbn [concat app]. now rewrite (IH rest Hr).
      * change (filter keepElement ([c] :: spread (d :: rest)))
          with (if keepCode c
                then [c] :: filter keepElement (spread (d :: rest))
                else filter keepElement (spread (d :: rest))).
        change (filter keepCode (c :: d :: rest))
          with (if keepCode c then c :: filter keepCode (d :: rest)
                else filter keepCode (d :: rest)).
        destruct (keepCode c); cbn [concat app];
          now rewrite (IH (d :: rest) Hdr).
Qed.

Lemma sanitizeOutput_filter (s : jsstring) :
  sanitizeOutput s = filter keepCode s.
Proof.
  unfold sanitizeOutput. destruct s as [|c s]; [reflexivity|].
  cbn [is_empty].
  apply (spread_filter_bounded (length (c :: s))). lia.
Qed.

(** ** Path segments *)

Module PathFacts.
Import Path PathSpec.

Lemma split_cons (p : jsstring) : exists seg segs, split p = seg :: segs.
Proof.
  induction p as [|c p [seg [segs IH]]]; simpl; [now eauto|].
  destruct (N.eqb c Ch.SLASH); [now eauto|]. rewrite IH. eauto.
Qed.

Lemma split_app_sep (x y : jsstring) :
  split (x ++ sep ++ y) = split x ++ split y.
Proof.
  induction x as [|c x IH]; [reflexivity|].
  cbn [app split]. cbn [app] in IH. rewrite IH.
  destruct (N.eqb c Ch.SLASH); [reflexivity|].
  destruct (split_cons x) as [seg [segs ->]]. reflexivity.
Qed.

Lemma split_no_slash (p : jsstring) : Forall no_slash (split p).
Proof.
  induction p as [|c p IH]; simpl.
  - now repeat constructor.
  - destruct (N.eqb c Ch.SLASH) eqn:E.
    + constructor; [reflexivity | assumption].
    + destruct (split p) as [|seg segs].
      { constructor; [|constructor]. unfold no_slash. simpl. now rewrite E. }
      inversion IH; subst. constructor; [|assumption].
      unfold no_slash in *. simpl. now rewrite E.
Qed.

Lemma split_plain_seg (seg : jsstring) : no_slash seg -> split seg = [seg].
Proof.
  unfold no_slash. induction seg as [|c seg IH]; simpl; [reflexivity|].
  intros H. apply andb_true_iff in H as [Hc Hs].
  apply negb_true_iff in Hc. rewrite Hc. now rewrite IH.
Qed.

Lemma split_join (segs : list jsstring) :
  Forall no_slash segs -> segs <> [] -> split (join sep segs) = segs.
Proof.
  induction segs as [|seg segs IH]; intros Hall Hne; [contradiction|].
  inversion Hall as [|? ? Hseg Hrest]; subst.
  destruct segs as [|seg' segs'].
  - simpl. now apply split_plain_seg.
  - change (join sep (seg :: seg' :: segs'))
      with (seg ++ sep ++ join sep (seg' :: segs')).
    rewrite split_app_sep, split_plain_seg by assumption.
    rewrite IH by (assumption || discriminate). reflexivity.
Qed.

(** Normalization from the root keeps only plain segments. *)
Lemma norm_step_plain (stack : list jsstring) (seg : jsstring) :
  Forall plain stack -> no_slash seg ->
  Forall plain (norm_step false stack seg).
Proof.
  intros Hst Hseg. unfold norm_step.
  destruct (is_empty seg) eqn:E1; [assumption|].
  destruct (str_eqb seg dot) eqn:E2; [assumption|]. cbn [orb].
  destruct (str_eqb seg dotdot) eqn:E3.
  - destruct stack as [|top below]; [constructor|].
    inversion Hst; subst.
    destruct (str_eqb top dotdot); assumption.
  - constructor; [|assumption]. repeat split; assumption.
Qed.

Lemma fold_norm_plain (segs stack : list jsstring) :
  Forall plain stack -> Forall no_slash segs ->
  Forall plain (fold_left (norm_step false) segs stack).
Proof.
  revert stack; induction segs as [|seg segs IH]; intros stack Hst Hs;
    [assumption|].
  inversion Hs; subst. simpl. apply IH; [|assumption].
  now apply norm_step_plain.
Qed.

Lemma norm_step_push (b : bool) (stack : list jsstring) (seg : jsstring) :
  plain seg -> norm_step b stack seg = seg :: stack.
Proof.
  intros (E1 & E2 & E3 & _). unfold norm_step. now rewrite E1, E2, E3.
Qed.

Lemma fold_norm_push (b : bool) (segs stack : list jsstring) :
  Forall plain segs ->
  fold_left (norm_step b) segs stack = rev segs ++ stack.
Proof.
  revert stack; induction segs as [|seg segs IH]; intros stack Hs;
    [reflexivity|].
  inversion Hs; subst. simpl.
  rewrite norm_step_push by assumption. rewrite IH by assumption.
  now rewrite <- app_assoc.
Qed.

Lemma plain_no_slash (segs : list jsstring) :
  Forall plain segs -> Forall no_slash segs.
Proof.
  intros H. eapply Forall_impl; [|exact H]. now intros seg (_ & _ & _ & Hn).
Qed.

(** The segments of the text [join sep segs]: the segments themselves. *)
Lemma fold_norm_join (b : bool) (segs stack : list jsstring) :
  Forall plain segs ->
  fold_left (norm_step b) (split (join sep segs)) stack = rev segs ++ stack.
Proof.
  intros Hs. destruct segs as [|seg segs'].
  - reflexivity.
  - rewrite split_join by (auto using plain_no_slash || discriminate).
    now apply fold_norm_push.
Qed.

Lemma filter_plain (segs : list jsstring) :
  Forall plain segs -> filter (fun s => negb (is_empty s)) segs = segs.
Proof.
  induction 1 as [|seg segs (E & _) _ IH]; simpl; [reflexivity|].
  now rewrite E, IH.
Qed.

Lemma strip_common_app (pre f t : list jsstring) :
  strip_common (pre ++ f) (pre ++ t) = strip_common f t.
Proof.
  induction pre as [|x pre IH]; simpl; [reflexivity|].
  now rewrite str_eqb_refl.
Qed.

Section Absolute.
Variable cwd : jsstring.
Hypothesis cwd_absolute : isAbsolute cwd = true.

Lemma resolve_loop_acc (l : list jsstring) (acc : jsstring) :
  resolve_loop cwd l acc
  = (fst (resolve_loop cwd l []) ++ acc, snd (resolve_loop cwd l [])).
Proof.
  revert acc; induction l as [|p l IH]; intros acc; cbn [resolve_loop].
  - destruct (is_empty cwd); cbn [fst snd]; [reflexivity|].
    f_equal. rewrite <- !app_assoc. reflexivity.
  - destruct (is_empty p); [apply IH|].
    destruct (isAbsolute p); cbn [fst snd].
    + f_equal. rewrite <- !app_assoc. reflexivity.
    + rewrite (IH (p ++ sep ++ acc)), (IH (p ++ sep ++ [])).
      cbn [fst snd]. f_equal. rewrite <- !app_assoc. reflexivity.
Qed.

(** What [resolve] prepends for the base directory alone: some text
    followed by a slash, and the result is absolute. *)
Lemma resolve_loop_base (base : jsstring) :
  exists X, resolve_loop cwd [base] [] = (X ++ sep, true).
Proof.
  assert (Hne : is_empty cwd = false)
    by (destruct cwd; [discriminate|reflexivity]).
  cbn [resolve_loop]. destruct (is_empty base).
  - rewrite Hne, cwd_absolute. exists cwd. reflexivity.
  - destruct (isAbsolute base).
    + exists base. reflexivity.
    + rewrite Hne, cwd_absolute. exists (cwd ++ sep ++ base).
      f_equal. rewrite <- !app_assoc. reflexivity.
Qed.

Lemma base_stack_plain (base : jsstring) : Forall plain (base_stack cwd base).
Proof.
  apply fold_norm_plain; [constructor | apply split_no_slash].
Qed.

Lemma resolve_base (base : jsstring) :
  resolve cwd [base] = sep ++ join sep (rev (base_stack cwd base)).
Proof.
  unfold resolve, base_stack. cbn [rev app].
  destruct (resolve_loop_base base) as [X E]. rewrite E. cbn [fst negb].
  reflexivity.
Qed.


Lemma fold_norm_trailing (X : jsstring) (b : bool) :
  fold_left (norm_step b) (split (X ++ sep)) []
  = fold_left (norm_step b) (split X) [].
Proof.
  change (X ++ sep) with (X ++ sep ++ []).
  rewrite split_app_sep, fold_left_app. reflexivity.
Qed.

Lemma resolve_loop_child (base file : jsstring) :
  is_empty file = false -> isAbsolute file = false ->
  resolve_loop cwd [file; base] []
  = (fst (resolve_loop cwd [base] []) ++ file ++ sep,
     snd (resolve_loop cwd [base] [])).
Proof.
  intros Hne Hrel.
  transitivity (resolve_loop cwd [base] (file ++ sep ++ [])).
  { cbn [resolve_loop]. now rewrite Hne, Hrel. }
  rewrite resolve_loop_acc. now rewrite app_nil_r.
Qed.

(** Resolving a non-empty relative [file] against the base: its segments
    are pushed on the stack of the base. *)
Lemma resolve_child (base file : jsstring) :
  is_empty file = false -> isAbsolute file = false ->
  resolve cwd [base; file]
  = sep ++ join sep (rev (fold_left (norm_step false)
                            (split (file ++ sep)) (base_stack cwd base))).
Proof.
  intros Hne Hrel. unfold resolve, base_stack.
  change (rev [base; file]) with [file; base].
  rewrite resolve_loop_child by assumption.
  destruct (resolve_loop_base base) as [X E]. rewrite E. cbn [fst snd negb].
  unfold normalizeString, normalize_segments.
  rewrite <- app_assoc. rewrite split_app_sep.
  rewrite fold_left_app, (fold_norm_trailing X). reflexivity.
Qed.

(** A normalized absolute path resolves to itself. *)
Lemma resolve_normal (segs : list jsstring) :
  Forall plain segs ->
  resolve cwd [sep ++ join sep segs] = sep ++ join sep segs.
Proof.
  intros Hs. unfold resolve.
  change (resolve_loop cwd (rev [sep ++ join sep segs]) [])
    with ([] ++ sep ++ (join sep segs ++ sep ++ []), true).
  cbn [negb]. unfold normalizeString, normalize_segments.
  rewrite !split_app_sep, !fold_left_app.
  change (fold_left (norm_step false) (split []) []) with (@nil jsstring).
  rewrite fold_norm_join by assumption.
  change (fold_left (norm_step false) (split []) (rev segs ++ []))
    with (rev segs ++ []).
  now rewrite app_nil_r, rev_involutive.
Qed.

Lemma segments_normal (segs : list jsstring) :
  Forall plain segs -> segments (sep ++ join sep segs) = segs.
Proof.
  intros Hs. unfold segments.
  change (sep ++ join sep segs) with ([] ++ sep ++ join sep segs).
  rewrite split_app_sep. cbn [split app filter is_empty negb].
  destruct segs as [|seg segs']; [reflexivity|].
  rewrite split_join by (auto using plain_no_slash || discriminate).
  now apply filter_plain.
Qed.

Lemma join_inj (a b : list jsstring) :
  Forall plain a -> Forall plain b ->
  sep ++ join sep a = sep ++ join sep b -> a = b.
Proof.
  intros Ha Hb E.
  rewrite <- (segments_normal a Ha), <- (segments_normal b Hb). now rewrite E.
Qed.

(** The relative path between two normalized absolute paths that part
    after a common prefix. *)
Lemma relative_normal (pre up down : list jsstring) :
  Forall plain (pre ++ up) -> Forall plain (pre ++ down) ->
  up <> down ->
  strip_common up down = (up, down) ->
  relative cwd (sep ++ join sep (pre ++ up)) (sep ++ join sep (pre ++ down))
  = join sep (map (fun _ => dotdot) up ++ down).
Proof.
  intros Hu Hd Hne Hstrip. unfold relative.
  assert (Hneq : sep ++ join sep (pre ++ up) <> sep ++ join sep (pre ++ down)).
  { intros E. apply join_inj in E; [|assumption..].
    apply app_inv_head in E. contradiction. }
  apply str_eqb_neq in Hneq.
  rewrite Hneq.
  rewrite !resolve_normal by assumption. rewrite Hneq.
  rewrite !segments_normal by assumption.
  now rewrite strip_common_app, Hstrip.
Qed.

End Absolute.
End PathFacts.

(** ** The path guard *)

Module GuardFacts.
Import Path PathSpec PathFacts.

Section Absolute.
Variable cwd : jsstring.
Hypothesis cwd_absolute : isAbsolute cwd = true.

Lemma join_plain_relative (segs : list jsstring) :
  Forall plain segs -> segs <> [] ->
  is_empty (join sep segs) = false /\ isAbsolute (join sep segs) = false.
Proof.
  intros Hs Hne. destruct segs as [|seg rest]; [contradiction|].
  inversion Hs as [|? ? (E & _ & _ & Hslash) _]; subst.
  destruct seg as [|c seg]; [discriminate|].
  unfold no_slash in Hslash. simpl in Hslash.
  apply andb_true_iff in Hslash as [Hc _]. apply negb_true_iff in Hc.
  destruct rest; simpl; now rewrite ?Hc.
Qed.

(** A path of plain segments below the base resolves to the base
    followed by these segments, and its relative path is itself. *)
Lemma resolve_plain_child (base : jsstring) (segs : list jsstring) :
  Forall plain segs -> segs <> [] ->
  resolve cwd [base; join sep segs]
  = sep ++ join sep (rev (base_stack cwd base) ++ segs).
Proof.
  intros Hs Hne.
  destruct (join_plain_relative segs Hs Hne) as [E1 E2].
  rewrite (resolve_child cwd cwd_absolute base _ E1 E2).
  change (join sep segs ++ sep) with (join sep segs ++ sep ++ []).
  rewrite split_app_sep, fold_left_app.
  rewrite fold_norm_join by assumption.
  change (fold_left (norm_step false) (split [])
            (rev segs ++ base_stack cwd base))
    with (rev segs ++ base_stack cwd base).
  now rewrite rev_app_distr, rev_involutive.
Qed.

Lemma relative_plain_child (base : jsstring) (segs : list jsstring) :
  Forall plain segs -> segs <> [] ->
  relative cwd (resolve cwd [base]) (resolve cwd [base; join sep segs])
  = join sep segs.
Proof.
  intros Hs Hne.
  rewrite (resolve_base cwd cwd_absolute), (resolve_plain_child base segs Hs Hne).
  pose proof (base_stack_plain cwd base) as Hb.
  apply Forall_rev in Hb.
  rewrite <- (app_nil_r (rev (base_stack cwd base))) at 1.
  rewrite (relative_normal cwd).
  - reflexivity.
  - now rewrite app_nil_r.
  - apply Forall_app; split; assumption.
  - intros E. symmetry in E. contradiction.
  - reflexivity.
Qed.

(** The base directory itself. *)
Lemma resolve_dot (base : jsstring) :
  resolve cwd [base; dot] = resolve cwd [base].
Proof.
  rewrite (resolve_base cwd cwd_absolute).
  rewrite (resolve_child cwd cwd_absolute base dot) by reflexivity.
  reflexivity.
Qed.

(** One level up and down again into [x]. *)
Lemma resolve_up_x (base : jsstring) :
  resolve cwd [base; js "../x"]
  = sep ++ join sep (rev (js "x" :: tl (base_stack cwd base))).
Proof.
  rewrite (resolve_child cwd cwd_absolute base (js "../x"))
    by reflexivity.
  change (split (js "../x" ++ sep)) with [dotdot; js "x"; []].
  pose proof (base_stack_plain cwd base) as Hb.
  destruct (base_stack cwd base) as [|top below]; [reflexivity|].
  inversion Hb as [|? ? (_ & _ & E & _) _]; subst.
  cbn [fold_left]. unfold norm_step at 3.
  change (is_empty dotdot || str_eqb dotdot dot) with false.
  change (str_eqb dotdot dotdot) with true. cbv iota. rewrite E.
  reflexivity.
Qed.

Lemma relative_up_x (base : jsstring) :
  resolve cwd [base] <> sep ->
  let rel := relative cwd (resolve cwd [base])
               (resolve cwd [base; js "../x"]) in
  rel = [] \/ rel = js "../x".
Proof.
  intros Hroot. rewrite resolve_up_x. rewrite (resolve_base cwd cwd_absolute) in *.
  pose proof (base_stack_plain cwd base) as Hb.
  destruct (base_stack cwd base) as [|top below]; [now contradiction Hroot|].
  cbn [tl rev]. inversion Hb as [|? ? Htop Hbelow]; subst.
  apply Forall_rev in Hbelow.
  destruct (str_eqb top (js "x")) eqn:E.
  - left. apply str_eqb_eq in E. subst top.
    unfold relative. now rewrite str_eqb_refl.
  - right. rewrite (relative_normal cwd).
    + reflexivity.
    + apply Forall_app; split; [assumption | now constructor].
    + apply Forall_app; split; [assumption|].
      constructor; [now repeat split | constructor].
    + intros F. injection F as F. subst top. now rewrite str_eqb_refl in E.
    + simpl. now rewrite E.
Qed.

Lemma isPathSafe_up_x (base : jsstring) :
  resolve cwd [base] <> sep -> isPathSafe cwd (js "../x") base = false.
Proof.
  intros Hroot. unfold isPathSafe.
  destruct (relative_up_x base Hroot) as [-> | ->]; reflexivity.
Qed.

Lemma isPathSafe_plain_child (base : jsstring) (segs : list jsstring) :
  Forall plain segs -> segs <> [] ->
  isPathSafe cwd (join sep segs) base
  = negb (startsWith (js "..") (join sep segs)).
Proof.
  intros Hs Hne. unfold isPathSafe.
  rewrite (relative_plain_child base segs Hs Hne).
  destruct (join_plain_relative segs Hs Hne) as [E1 E2]. rewrite E2.
  destruct (join sep segs); [discriminate|].
  cbn [str_eqb negb andb]. now rewrite andb_true_r.
Qed.

Lemma isPathSafe_dot (base : jsstring) : isPathSafe cwd (js ".") base = false.
Proof.
  unfold isPathSafe. change (js ".") with dot. rewrite resolve_dot.
  unfold relative. now rewrite str_eqb_refl.
Qed.

End Absolute.

Lemma isPathSafe_false_iff (cwd file base : jsstring) :
  let rel := relative cwd (resolve cwd [base]) (resolve cwd [base; file]) in
  isPathSafe cwd file base = false
  <-> rel = [] \/ startsWith (js "..") rel = true \/ isAbsolute rel = true.
Proof.
  intros rel. unfold isPathSafe. fold rel.
  destruct (str_eqb rel []) eqn:E1.
  - apply str_eqb_eq in E1. simpl. tauto.
  - apply str_eqb_neq in E1.
    destruct (startsWith (js "..") rel), (isAbsolute rel); simpl;
      intuition congruence.
Qed.

Lemma plain_a_b : Forall plain [js "a"; js "b"].
Proof. repeat constructor. Qed.

Lemma plain_dotdot_notes : Forall plain [js "..notes"].
Proof. repeat constructor. Qed.

End GuardFacts.

(** ** Include resolution and command execution *)

Section EngineFacts.

Variable cwd : jsstring.
Variable readFile : jsstring -> completion jsstring.
Variable World : Type.
Variables env_PATH env_HOME : option jsstring.
Variable execFile :
  World -> jsstring -> list jsstring -> ExecOptions
  -> completion (jsstring * jsstring) * World.

Local Abbreviation includes := (processFileIncludes cwd readFile).
Local Abbreviation marker :=
  (fun basePath depth =>
     includeMarker cwd readFile
       (fun fileContent => includes fileContent basePath (depth + 1))
       basePath).
Local Abbreviation bash := (processBashCommands cwd env_PATH env_HOME execFile).
Local Abbreviation bashStep := (bashMarker cwd env_PATH env_HOME execFile).
Local Abbreviation bashRun := (bashLoop cwd env_PATH env_HOME execFile).

(** The recursive equation of [processFileIncludes], as the source has
    it. *)
Lemma processFileIncludes_eq (content basePath : jsstring) (depth : nat) :
  includes content basePath depth
  = if is_empty content then Ok content
    else if MAX_INCLUDE_DEPTH <=? depth then Throw depthExceeded
    else match include_matches None 0 content with
         | [] => Ok content
         | matches => for_of (marker basePath depth) matches content
         end.
Proof.
  unfold processFileIncludes.
  destruct (MAX_INCLUDE_DEPTH <=? depth) eqn:E.
  - destruct (MAX_INCLUDE_DEPTH - depth); cbn [includes_levels]; now rewrite E.
  - apply Nat.leb_gt in E.
    replace (MAX_INCLUDE_DEPTH - depth)
      with (S (MAX_INCLUDE_DEPTH - (depth + 1))) by lia.
    cbn [includes_levels].
    apply Nat.leb_gt in E. rewrite E.
    destruct (is_empty content); [reflexivity|].
    now destruct (include_matches None 0 content).
Qed.

Lemma processFileIncludes_depth (content basePath : jsstring) (depth : nat) :
  is_empty content = false -> MAX_INCLUDE_DEPTH <= depth ->
  includes content basePath depth = Throw depthExceeded.
Proof.
  intros Hne Hd. rewrite processFileIncludes_eq, Hne.
  apply Nat.leb_le in Hd. now rewrite Hd.
Qed.

Lemma processFileIncludes_abort (content basePath : jsstring) (depth : nat)
    (before after : list (jsstring * jsstring)) (m : jsstring * jsstring)
    (partial : jsstring) (e : js_error) :
  is_empty content = false ->
  depth < MAX_INCLUDE_DEPTH ->
  include_matches None 0 content = before ++ m :: after ->
  for_of (marker basePath depth) before content = Ok partial ->
  marker basePath depth partial m = Throw e ->
  includes content basePath depth = Throw e.
Proof.
  intros Hne Hd Hm Hb He.
  pose proof (for_of_abort _ before after m content partial e Hb He) as Hfor.
  rewrite processFileIncludes_eq, Hne.
  apply Nat.leb_gt in Hd. rewrite Hd, Hm.
  destruct (before ++ m :: after) eqn:Eq; [|exact Hfor].
  destruct before; discriminate.
Qed.

Lemma bashLoop_app (options : BashOptions)
    (xs ys : list (jsstring * jsstring)) (st : jsstring * World) :
  bashRun options (xs ++ ys) st
  = match bashRun options xs st with
    | (Ok partial, w) => bashRun options ys (partial, w)
    | (Throw e, w) => (Throw e, w)
    end.
Proof.
  revert st; induction xs as [|x xs IH]; intros st; cbn [app bashLoop].
  - now destruct st.
  - destruct (bashStep options st x) as [[st'|e] w]; [apply IH | reflexivity].
Qed.

Lemma processBashCommands_abort (content : jsstring) (options : BashOptions)
    (w w1 w2 : World) (before after : list (jsstring * jsstring))
    (m : jsstring * jsstring) (partial : jsstring) (e : js_error) :
  is_empty content = false ->
  command_matches None 0 content = before ++ m :: after ->
  bashRun options before (content, w) = (Ok partial, w1) ->
  bashStep options (partial, w1) m = (Throw e, w2) ->
  bash content options w = (Throw e, w2).
Proof.
  intros Hne Hm Hb He.
  assert (Hrun : bashRun options (before ++ m :: after) (content, w)
                 = (Throw e, w2)).
  { rewrite bashLoop_app, Hb. cbn [bashLoop]. now rewrite He. }
  unfold processBashCommands. rewrite Hne, Hm.
  destruct (before ++ m :: after) eqn:Eq; [|exact Hrun].
  destruct before; discriminate.
Qed.

(** What one marker does when the command passes validation and its
    execution is rejected. *)
Lemma bashMarker_rejected (options : BashOptions) (partial : jsstring)
    (w w' : World) (fullMatch line : jsstring) (v : ValidationResult)
    (err : js_error) :
  validateCommand (trim line) = Ok v -> allowed v = true ->
  execFile w (command v) (args v)
    (execOptions cwd env_PATH env_HOME options) = (Throw err, w') ->
  bashStep options (partial, w) (fullMatch, line)
  = (Throw (bashHandler (trim line) err), w').
Proof.
  intros Hv Ha He. unfold bashMarker. rewrite Hv, Ha. cbn [negb].
  now rewrite He.
Qed.

Lemma timeout_not_failure (c1 c2 msg : jsstring) :
  Error (js "Command timeout: " ++ c1)
  <> Error (js "Command failed: " ++ c2 ++ js " - " ++ msg).
Proof.
  intros H. apply (f_equal message) in H. cbn [message Error] in H.
  apply (f_equal (firstn 9)) in H. vm_compute in H. discriminate.
Qed.

End EngineFacts.

(** ** The tokenizer's loops end before their fuel does *)

Module ShellQuoteFacts.
Import ShellQuote.

Lemma skipn_length_le (n : nat) (s : jsstring) : length (skipn n s) <= length s.
Proof. rewrite length_skipn. lia. Qed.

(** The fuel of [word_span] is never used up: any amount from the length of
    the text on gives the same span. *)
Lemma word_span_fuel (f1 f2 : nat) (s : jsstring) :
  length s <= f1 -> length s <= f2 -> word_span f1 s = word_span f2 s.
Proof.
  revert f2 s; induction f1 as [|f1 IH]; intros f2 s H1 H2.
  - destruct s; [|simpl in H1; lia]. now destruct f2.
  - destruct s as [|c t]; [now destruct f2|].
    destruct f2 as [|f2]; [simpl in H2; lia|].
    simpl in H1, H2. cbn [word_span].
    destruct (N.eqb c Ch.BACKSLASH &&
              match t with
              | d :: _ => in_class d META || N.eqb d Ch.SQ || N.eqb d Ch.DQ
              | [] => false
              end).
    + rewrite (IH f2 (tl t)); [reflexivity | |]; destruct t; simpl in *; lia.
    + destruct (bare c); [now rewrite (IH f2 t) by lia|].
      destruct (N.eqb c Ch.DQ || N.eqb c Ch.SQ); [|reflexivity].
      destruct (quoted_len c t) as [n|]; [|reflexivity].
      pose proof (skipn_length_le n t) as Hn.
      now rewrite (IH f2 (skipn n t)) by lia.
Qed.

(** [parseEnvVar] never moves the index backwards. *)
Lemma parseEnvVar_index (s : jsstring) (i i' : nat) (v : jsstring) :
  i < length s -> parseEnvVar s i = Ok (v, i') -> i <= i'.
Proof.
  unfold parseEnvVar. intros Hi.
  destruct (nth_error s (i + 1)) as [char|]; [|intros [= _ <-]; lia].
  destruct (N.eqb char Ch.LBRACE).
  - destruct (nth_error s (i + 1 + 1)) as [c'|]; [|discriminate].
    destruct (N.eqb c' Ch.RBRACE); [discriminate|].
    destruct (index_where (N.eqb Ch.RBRACE) (skipn (i + 1 + 1) s));
      [intros [= _ <-]; lia | discriminate].
  - destruct (in_class char (js "*@#?$!_-")); [intros [= _ <-]; lia|].
    destruct (index_where (fun c => negb (isWordChar c)) (skipn (i + 1) s));
      intros [= _ <-]; lia.
Qed.

(** The fuel of [scan] is never used up: any amount above the number of
    code units left gives the same tokens. *)
Lemma scan_fuel (f1 f2 : nat) (from s : jsstring) (i : nat)
    (quote : option code_unit) (esc : bool) (out : jsstring) (isGlob : bool) :
  length s - i < f1 -> length s - i < f2 ->
  scan f1 from s i quote esc out isGlob = scan f2 from s i quote esc out isGlob.
Proof.
  revert f2 i quote esc out isGlob.
  induction f1 as [|f1 IH]; intros f2 i quote esc out isGlob H1 H2; [lia|].
  destruct f2 as [|f2]; [lia|]. cbn [scan].
  destruct (nth_error s i) as [c|] eqn:Hc; [|reflexivity].
  assert (Hi : i < length s) by (apply nth_error_Some; congruence).
  assert (Hstep : forall j q e o g, i < j ->
            scan f1 from s j q e o g = scan f2 from s j q e o g)
    by (intros; apply IH; lia).
  assert (Henv : forall q o g,
            match parseEnvVar s i with
            | Throw e => Throw e
            | Ok (v, i') => scan f1 from s (i' + 1) q false (o ++ v) g
            end
            = match parseEnvVar s i with
              | Throw e => Throw e
              | Ok (v, i') => scan f2 from s (i' + 1) q false (o ++ v) g
              end).
  { intros q o g. destruct (parseEnvVar s i) as [[v i']|e] eqn:Hp; [|reflexivity].
    apply Hstep. apply parseEnvVar_index in Hp; [lia | assumption]. }
  destruct esc; [apply Hstep; lia|].
  destruct quote as [q|].
  - destruct (N.eqb c q); [apply Hstep; lia|].
    destruct (N.eqb q Ch.SQ); [apply Hstep; lia|].
    destruct (N.eqb c Ch.BACKSLASH); [apply Hstep; lia|].
    destruct (N.eqb c Ch.DOLLAR); [apply Henv | apply Hstep; lia].
  - destruct (N.eqb c Ch.DQ || N.eqb c Ch.SQ); [apply Hstep; lia|].
    destruct (controlRE_test [c]); [reflexivity|].
    destruct (N.eqb c Ch.HASH); [reflexivity|].
    destruct (N.eqb c Ch.BACKSLASH); [apply Hstep; lia|].
    destruct (N.eqb c Ch.DOLLAR); [apply Henv | apply Hstep; lia].
Qed.

End ShellQuoteFacts.

(** ** Command validation *)

(** Whatever [validateCommand] allows is on the allowlist and carries no
    dangerous argument. *)
Lemma validateCommand_allowed (s : jsstring) (v : ValidationResult) :
  validateCommand s = Ok v -> allowed v = true ->
  includes BASH_COMMAND_ALLOWLIST (command v) = true
  /\ forallb (fun arg => negb (dangerousPattern arg)) (args v) = true.
Proof.
  unfold validateCommand.
  destruct (is_empty (trim s)); [intros [= <-]; discriminate|].
  destruct (ShellQuote.parse (trim s)) as [parsed|e]; [|discriminate].
  cbn [bind].
  destruct (existsb isOperator parsed); [intros [= <-]; discriminate|].
  destruct (stringTokens parsed) as [|cmd rest]; [intros [= <-]; discriminate|].
  destruct (includes BASH_COMMAND_ALLOWLIST (Path.basename cmd)) eqn:Hin;
    cbn [negb]; [|intros [= <-]; discriminate].
  destruct (find dangerousPattern rest) as [arg|] eqn:Hfind;
    [intros [= <-]; discriminate|].
  intros [= <-] _. cbn [command args]. split; [assumption|].
  apply forallb_forall. intros arg Harg.
  apply negb_true_iff. destruct (dangerousPattern arg) eqn:Hd; [|reflexivity].
  exfalso. eapply find_none in Hfind; [|exact Harg]. congruence.
Qed.

(** A command whose base name is not on the allowlist is rejected, and the
    error names it. *)
Lemma validateCommand_unlisted (s : jsstring) (parsed : list ShellQuote.token)
    (cmd : jsstring) (rest : list jsstring) :
  is_empty (trim s) = false ->
  ShellQuote.parse (trim s) = Ok parsed ->
  existsb isOperator parsed = false ->
  stringTokens parsed = cmd :: rest ->
  includes BASH_COMMAND_ALLOWLIST (Path.basename cmd) = false ->
  validateCommand s
  = Ok (mkValidation false (Path.basename cmd) rest
          (Some (js "Command '" ++ Path.basename cmd
                   ++ js "' is not in the allowlist"))).
Proof.
  intros Hne Hp Hop Htok Hin. unfold validateCommand.
  rewrite Hne, Hp. cbn [bind]. now rewrite Hop, Htok, Hin.
Qed.

(** The allowlist is compared by equality of names. *)
Lemma includes_In (l : list jsstring) (name : jsstring) :
  includes l name = true <-> In name l.
Proof.
  unfold includes. rewrite existsb_exists. split.
  - intros (x & Hx & E). apply str_eqb_eq in E. now subst.
  - intros H. exists name. split; [assumption | apply str_eqb_refl].
Qed.

(** C1: [validateCommand] on the four command lines of the specification.
    ["ls -la"] is allowed with command [ls] and arguments [["-la"]];
    ["rm -rf /"] is rejected, the error naming [rm]; a full path is judged by
    its base name, and a name is matched whole ([lsof] is not [ls]);
    ["echo a && echo b"] is rejected for its operator; ["echo $(whoami)"] is
    rejected. *)
Theorem C1_validateCommand_examples :
  validateCommand (js "ls -la")
  = Ok (mkValidation true (js "ls") [js "-la"] None)
  /\ validateCommand (js "rm -rf /")
     = Ok (mkValidation false (js "rm") [js "-rf"; js "/"]
             (Some (js "Command 'rm' is not in the allowlist")))
  /\ validateCommand (js "/bin/ls -la")
     = Ok (mkValidation true (js "ls") [js "-la"] None)
  /\ validateCommand (js "/usr/bin/rm -rf /")
     = Ok (mkValidation false (js "rm") [js "-rf"; js "/"]
             (Some (js "Command 'rm' is not in the allowlist")))
  /\ validateCommand (js "lsof -i")
     = Ok (mkValidation false (js "lsof") [js "-i"]
             (Some (js "Command 'lsof' is not in the allowlist")))
  /\ validateCommand (js "echo a && echo b")
     = Ok (mkValidation false [] []
             (Some (js "Shell operators (&&, ||, |, ;, etc.) are not allowed")))
  /\ (exists v, validateCommand (js "echo $(whoami)") = Ok v
                /\ allowed v = false).
Proof.
  repeat split; try (vm_compute; reflexivity).
  eexists. split; vm_compute; reflexivity.
Qed.

(** C9: the deprecated [isBashCommandAllowed] returns exactly the [allowed]
    field of [validateCommand] on every command line, and throws what it
    throws. *)
Theorem C9_isBashCommandAllowed_agrees (s : jsstring) :
  isBashCommandAllowed s
  = match validateCommand s with
    | Ok v => Ok (allowed v)
    | Throw e => Throw e
    end.
Proof.
  unfold isBashCommandAllowed, bind. now destruct (validateCommand s).
Qed.

(** ** Output sanitizing *)

Lemma keepCode_spec (c : code_unit) :
  keepCode c
  = negb (negb (N.eqb c 9) && negb (N.eqb c 10) && negb (N.eqb c 13)
          && (N.ltb c 32 || N.eqb c 127)).
Proof.
  unfold keepCode. rewrite (N.ltb_antisym 32 c).
  destruct (N.eqb c 9), (N.eqb c 10), (N.eqb c 13), (N.leb 32 c),
    (N.eqb c 127); reflexivity.
Qed.

(** C6: [sanitizeOutput] returns its input without the code units that are
    neither 9, 10 nor 13 and are below 32 or equal to 127, every other code
    unit kept in place; on ["a\x00b\tc\n"] it returns ["ab\tc\n"].  It is a
    total function of its argument. *)
Theorem C6_sanitizeOutput_filter (s : jsstring) :
  sanitizeOutput s
  = filter (fun c =>
              negb (negb (N.eqb c 9) && negb (N.eqb c 10) && negb (N.eqb c 13)
                    && (N.ltb c 32 || N.eqb c 127))) s
  /\ sanitizeOutput ([97; 0; 98; 9; 99; 10]%N) = [97; 98; 9; 99; 10]%N.
Proof.
  split; [|reflexivity].
  rewrite sanitizeOutput_filter. apply filter_ext. exact keepCode_spec.
Qed.

(** ** Argument substitution *)

(** C5: the substituted values are scanned again.  With the arguments
    [["$2"; "b"]] the body ["$1"] becomes ["b"], not ["$2"]: the round for
    [$2] replaces the text the round for [$1] has put in.  The replacement
    text is also read as a replacement pattern: the argument ["$&"] puts the
    placeholder back, and ["a$$b"] arrives as ["a$b"]. *)
Theorem C5_replaceArguments_rescans :
  replaceArguments (js "$1") (ArgArray [js "$2"; js "b"]) = js "b"
  /\ replaceArguments (js "$1") (ArgArray [js "$&"]) = js "$1"
  /\ replaceArguments (js "$1") (ArgArray [js "a$$b"]) = js "a$b"
  /\ replaceArguments (js "$ARGUMENTS") (ArgString (js "$2")) = []
  /\ replaceArguments (js "Hello $1, see $2$3") (ArgArray [js "world"; js "x"])
     = js "Hello world, see x".
Proof. repeat split; vm_compute; reflexivity. Qed.

(** ** The path guard, as the specification tests it *)

(** C4, as stated, fails at the root: below [/] the candidate ["../x"]
    resolves to [/x], which is inside the base, and the guard returns
    true. *)
Lemma C4_root_counterexample :
  isPathSafe Example.cwd (js "../x") (js "/") = true.
Proof. vm_compute. reflexivity. Qed.

(** C4 (amended): for every base directory that does not resolve to the
    root the guard returns false for ["../x"]; for every base directory it
    returns true for ["a/b"] and false for ["."]; a candidate is unsafe
    exactly when the path from the resolved base to the resolved candidate
    is empty, begins with the two characters [..], or is absolute. *)
Theorem C4_path_guard (cwd base : jsstring) :
  Path.isAbsolute cwd = true ->
  (Path.resolve cwd [base] <> Path.sep ->
   isPathSafe cwd (js "../x") base = false)
  /\ isPathSafe cwd (js "a/b") base = true
  /\ isPathSafe cwd (js ".") base = false
  /\ (forall file : jsstring,
        isPathSafe cwd file base = false
        <-> Path.relative cwd (Path.resolve cwd [base])
              (Path.resolve cwd [base; file]) = []
            \/ startsWith (js "..")
                 (Path.relative cwd (Path.resolve cwd [base])
                    (Path.resolve cwd [base; file])) = true
            \/ Path.isAbsolute
                 (Path.relative cwd (Path.resolve cwd [base])
                    (Path.resolve cwd [base; file])) = true).
Proof.
  intros Habs. repeat split.
  - now apply GuardFacts.isPathSafe_up_x.
  - change (js "a/b") with (join Path.sep [js "a"; js "b"]).
    rewrite (GuardFacts.isPathSafe_plain_child cwd Habs base)
      by (exact GuardFacts.plain_a_b || discriminate).
    reflexivity.
  - now apply GuardFacts.isPathSafe_dot.
  - apply (GuardFacts.isPathSafe_false_iff cwd file base).
  - apply (GuardFacts.isPathSafe_false_iff cwd file base).
Qed.

Lemma C4_path_guard_witness :
  Path.isAbsolute Example.cwd = true
  /\ Path.resolve Example.cwd [Example.base] <> Path.sep
  /\ isPathSafe Example.cwd (js "../x") Example.base = false
  /\ isPathSafe Example.cwd (js "a/b") Example.base = true
  /\ isPathSafe Example.cwd (js ".") Example.base = false.
Proof.
  assert (Habs : Path.isAbsolute Example.cwd = true) by reflexivity.
  assert (Hroot : Path.resolve Example.cwd [Example.base] <> Path.sep)
    by (vm_compute; discriminate).
  destruct (C4_path_guard Example.cwd Example.base Habs)
    as (Hup & Hchild & Hdot & _).
  repeat split; auto.
Defined.

(** C10: the guard returns false whenever the path from the base to the
    candidate begins with the two characters [..]; this is a test on the
    text, so ["..notes"], which resolves to a file directly inside the base
    directory, is rejected as well. *)
Theorem C10_dotdot_prefix (cwd base : jsstring) :
  (forall file : jsstring,
     startsWith (js "..")
       (Path.relative cwd (Path.resolve cwd [base])
          (Path.resolve cwd [base; file])) = true ->
     isPathSafe cwd file base = false)
  /\ (Path.isAbsolute cwd = true ->
      Path.resolve cwd [base; js "..notes"]
      = Path.sep ++ join Path.sep
                      (rev (PathSpec.base_stack cwd base) ++ [js "..notes"])
      /\ Path.resolve cwd [base]
         = Path.sep ++ join Path.sep (rev (PathSpec.base_stack cwd base))
      /\ isPathSafe cwd (js "..notes") base = false).
Proof.
  split.
  - intros file H. apply (GuardFacts.isPathSafe_false_iff cwd file base). auto.
  - intros Habs. repeat split.
    + change (js "..notes") with (join Path.sep [js "..notes"]).
      apply (GuardFacts.resolve_plain_child cwd Habs);
        [exact GuardFacts.plain_dotdot_notes | discriminate].
    + apply (PathFacts.resolve_base cwd Habs).
    + change (js "..notes") with (join Path.sep [js "..notes"]).
      rewrite (GuardFacts.isPathSafe_plain_child cwd Habs base)
        by (exact GuardFacts.plain_dotdot_notes || discriminate).
      reflexivity.
Qed.

Lemma C10_dotdot_prefix_witness :
  startsWith (js "..")
    (Path.relative Example.cwd (Path.resolve Example.cwd [Example.base])
       (Path.resolve Example.cwd [Example.base; js "../../etc/passwd"])) = true
  /\ isPathSafe Example.cwd (js "../../etc/passwd") Example.base = false
  /\ Path.isAbsolute Example.cwd = true
  /\ Path.resolve Example.cwd [Example.base; js "..notes"] = js "/base/..notes"
  /\ isPathSafe Example.cwd (js "..notes") Example.base = false.
Proof.
  assert (Hpre : startsWith (js "..")
            (Path.relative Example.cwd (Path.resolve Example.cwd [Example.base])
               (Path.resolve Example.cwd [Example.base; js "../../etc/passwd"]))
          = true) by reflexivity.
  assert (Habs : Path.isAbsolute Example.cwd = true) by reflexivity.
  destruct (C10_dotdot_prefix Example.cwd Example.base) as [Hfile Hnotes].
  destruct (Hnotes Habs) as (Hres & _ & Hsafe).
  repeat split; auto.
Defined.

(** ** Include chains *)

Section IncludeChains.

Variable cwd : jsstring.
Variable readFile : jsstring -> completion jsstring.
Hypothesis cwd_absolute : Path.isAbsolute cwd = true.

Local Abbreviation includes := (processFileIncludes cwd readFile).

(** A name of one plain segment is inside every base directory. *)
Lemma isPathSafe_name (name base : jsstring) :
  PathSpec.plain name -> startsWith (js "..") name = false ->
  isPathSafe cwd name base = true.
Proof.
  intros Hp Hdd.
  change name with (join Path.sep [name]).
  rewrite (GuardFacts.isPathSafe_plain_child cwd cwd_absolute base).
  - cbn [join]. now rewrite Hdd.
  - constructor; [exact Hp | constructor].
  - discriminate.
Qed.

(** A text with one marker for a readable file inside the base. *)
Lemma processFileIncludes_single (content basePath : jsstring) (depth : nat)
    (fullMatch name fileContent : jsstring) :
  is_empty content = false ->
  depth < MAX_INCLUDE_DEPTH ->
  include_matches None 0 content = [(fullMatch, name)] ->
  isPathSafe cwd name basePath = true ->
  readFile (Path.resolve cwd [basePath; name]) = Ok fileContent ->
  includes content basePath depth
  = try_catch
      (processedContent <- includes fileContent basePath (depth + 1) ;;
       Ok (replace content fullMatch
             (if startsWith (js " ") fullMatch
              then js " " ++ processedContent else processedContent)))
      (includeHandler name).
Proof.
  intros Hne Hd Hm Hsafe Hread.
  rewrite processFileIncludes_eq, Hne.
  apply Nat.leb_gt in Hd. rewrite Hd, Hm.
  cbn [for_of]. unfold includeMarker. rewrite Hsafe. cbn [negb].
  rewrite Hread. cbn [bind].
  now destruct (includes fileContent basePath (depth + 1)).
Qed.

(** Three nested includes reach depth 3, where any non-empty content is
    refused, with or without markers in it. *)
Lemma chain_of_three_fails (base D : jsstring) :
  readFile (Path.resolve cwd [base; js "b.md"]) = Ok (js "@c.md") ->
  readFile (Path.resolve cwd [base; js "c.md"]) = Ok (js "@d.md") ->
  readFile (Path.resolve cwd [base; js "d.md"]) = Ok D ->
  is_empty D = false ->
  includes (js "@b.md") base 0 = Throw depthExceeded.
Proof.
  intros Hb Hc Hd HD.
  rewrite (processFileIncludes_single (js "@b.md") base 0
             (js "@b.md") (js "b.md") (js "@c.md"));
    [| reflexivity | unfold MAX_INCLUDE_DEPTH; lia | reflexivity
     | apply isPathSafe_name; now repeat split | exact Hb].
  rewrite (processFileIncludes_single (js "@c.md") base (0 + 1)
             (js "@c.md") (js "c.md") (js "@d.md"));
    [| reflexivity | unfold MAX_INCLUDE_DEPTH; lia | reflexivity
     | apply isPathSafe_name; now repeat split | exact Hc].
  rewrite (processFileIncludes_single (js "@d.md") base (0 + 1 + 1)
             (js "@d.md") (js "d.md") D);
    [| reflexivity | unfold MAX_INCLUDE_DEPTH; lia | reflexivity
     | apply isPathSafe_name; now repeat split | exact Hd].
  rewrite (processFileIncludes_depth cwd readFile D base (0 + 1 + 1 + 1) HD)
    by (unfold MAX_INCLUDE_DEPTH; lia).
  reflexivity.
Qed.

(** Two nested includes, the last file without markers, are resolved. *)
Lemma chain_of_two_resolves (base : jsstring) :
  readFile (Path.resolve cwd [base; js "p.md"]) = Ok (js "P: @q.md") ->
  readFile (Path.resolve cwd [base; js "q.md"]) = Ok (js "Q") ->
  includes (js "A: @p.md") base 0 = Ok (js "A: P: Q").
Proof.
  intros Hp Hq.
  rewrite (processFileIncludes_single (js "A: @p.md") base 0
             (js " @p.md") (js "p.md") (js "P: @q.md"));
    [| reflexivity | unfold MAX_INCLUDE_DEPTH; lia | reflexivity
     | apply isPathSafe_name; now repeat split | exact Hp].
  rewrite (processFileIncludes_single (js "P: @q.md") base (0 + 1)
             (js " @q.md") (js "q.md") (js "Q"));
    [| reflexivity | unfold MAX_INCLUDE_DEPTH; lia | reflexivity
     | apply isPathSafe_name; now repeat split | exact Hq].
  rewrite (processFileIncludes_eq cwd readFile (js "Q") base (0 + 1 + 1)).
  reflexivity.
Qed.

End IncludeChains.

(** C2, as stated, fails for the chain of depth 3: [b.md] includes [c.md],
    [c.md] includes [d.md], and [d.md] holds ["done"], a text without
    markers; resolving ["@b.md"] from depth 0 throws the depth error. *)
Lemma C2_depth3_counterexample :
  Example.readFile (js "/base/d.md") = Ok (js "done")
  /\ include_matches None 0 (js "done") = []
  /\ processFileIncludes Example.cwd Example.readFile (js "@b.md")
       Example.base 0
     = Throw (Error (js "Maximum include depth (3) exceeded")).
Proof. repeat split; vm_compute; reflexivity. Qed.

(** C2 (amended): from depth 0, a chain in which a third nested file is
    reached (the text includes [b.md], [b.md] includes [c.md], [c.md]
    includes [d.md]) fails with the depth error as soon as [d.md] is not
    empty, whether [d.md] includes a further file or holds no marker at all;
    a chain of two nested files, the second without markers, succeeds and
    returns the fully resolved body. *)
Theorem C2_include_depth (cwd : jsstring)
    (readFile : jsstring -> completion jsstring) (base D : jsstring) :
  Path.isAbsolute cwd = true ->
  readFile (Path.resolve cwd [base; js "b.md"]) = Ok (js "@c.md") ->
  readFile (Path.resolve cwd [base; js "c.md"]) = Ok (js "@d.md") ->
  readFile (Path.resolve cwd [base; js "d.md"]) = Ok D ->
  is_empty D = false ->
  readFile (Path.resolve cwd [base; js "p.md"]) = Ok (js "P: @q.md") ->
  readFile (Path.resolve cwd [base; js "q.md"]) = Ok (js "Q") ->
  processFileIncludes cwd readFile (js "@b.md") base 0
  = Throw (Error (js "Maximum include depth (3) exceeded"))
  /\ processFileIncludes cwd readFile (js "A: @p.md") base 0
     = Ok (js "A: P: Q").
Proof.
  intros Habs Hb Hc Hd HD Hp Hq. split.
  - now apply (chain_of_three_fails cwd readFile Habs base D).
  - now apply (chain_of_two_resolves cwd readFile Habs base).
Qed.

Lemma C2_include_depth_witness :
  Path.isAbsolute Example.cwd = true
  /\ Example.readFile4 (Path.resolve Example.cwd [Example.base; js "d.md"])
     = Ok (js "@e.md")
  /\ processFileIncludes Example.cwd Example.readFile4 (js "@b.md")
       Example.base 0
     = Throw (Error (js "Maximum include depth (3) exceeded"))
  /\ processFileIncludes Example.cwd Example.readFile4 (js "A: @p.md")
       Example.base 0
     = Ok (js "A: P: Q").
Proof.
  assert (H : processFileIncludes Example.cwd Example.readFile4 (js "@b.md")
                Example.base 0
              = Throw (Error (js "Maximum include depth (3) exceeded"))
              /\ processFileIncludes Example.cwd Example.readFile4
                   (js "A: @p.md") Example.base 0
                 = Ok (js "A: P: Q")).
  { apply (C2_include_depth Example.cwd Example.readFile4 Example.base
             (js "@e.md")); reflexivity. }
  destruct H as [H3 H2]. repeat split; auto.
Defined.

(** C7: a marker that follows a line feed or a tab is replaced together
    with that white-space code unit, and nothing is put in its place; only
    after a space is a space kept.  [notes.txt] holds ["done"]. *)
Theorem C7_include_leading_whitespace :
  processFileIncludes Example.cwd Example.readFile
    (js "a" ++ [Ch.LF] ++ js "@notes.txt") Example.base 0
  = Ok (js "adone")
  /\ processFileIncludes Example.cwd Example.readFile
       (js "a" ++ [Ch.TAB] ++ js "@notes.txt") Example.base 0
     = Ok (js "adone")
  /\ processFileIncludes Example.cwd Example.readFile
       (js "a @notes.txt") Example.base 0
     = Ok (js "a done").
Proof. repeat split; vm_compute; reflexivity. Qed.

(** ** Errors abort the expansion *)

(** C3: in both passes the markers are resolved in order and the first one
    that fails ends the call with its error: whatever the markers before it
    produced (the text [partial]) is not returned, and no later marker is
    looked at.  For the commands the state of the machine is the one the
    failing marker left. *)
Theorem C3_first_failure_aborts :
  (forall (cwd : jsstring) (readFile : jsstring -> completion jsstring)
          (content basePath : jsstring) (depth : nat)
          (before after : list (jsstring * jsstring))
          (m : jsstring * jsstring) (partial : jsstring) (e : js_error),
      is_empty content = false ->
      depth < MAX_INCLUDE_DEPTH ->
      include_matches None 0 content = before ++ m :: after ->
      for_of
        (includeMarker cwd readFile
           (fun fileContent =>
              processFileIncludes cwd readFile fileContent basePath (depth + 1))
           basePath)
        before content = Ok partial ->
      includeMarker cwd readFile
        (fun fileContent =>
           processFileIncludes cwd readFile fileContent basePath (depth + 1))
        basePath partial m = Throw e ->
      processFileIncludes cwd readFile content basePath depth = Throw e)
  /\ (forall (cwd : jsstring) (World : Type)
             (env_PATH env_HOME : option jsstring)
             (execFile : World -> jsstring -> list jsstring -> ExecOptions
                         -> completion (jsstring * jsstring) * World)
             (content : jsstring) (options : BashOptions) (w w1 w2 : World)
             (before after : list (jsstring * jsstring))
             (m : jsstring * jsstring) (partial : jsstring) (e : js_error),
         is_empty content = false ->
         command_matches None 0 content = before ++ m :: after ->
         bashLoop cwd env_PATH env_HOME execFile options before (content, w)
         = (Ok partial, w1) ->
         bashMarker cwd env_PATH env_HOME execFile options (partial, w1) m
         = (Throw e, w2) ->
         processBashCommands cwd env_PATH env_HOME execFile content options w
         = (Throw e, w2)).
Proof.
  split.
  - intros. eapply processFileIncludes_abort; eassumption.
  - intros. eapply processBashCommands_abort; eassumption.
Qed.

Lemma C3_first_failure_aborts_witness :
  processFileIncludes Example.cwd Example.readFile
    (js "x @q.md y @notes.txt z @missing") Example.base 0
  = Throw (Error (js "File not found: missing"))
  /\ processBashCommands Example.cwd Example.env_PATH Example.env_HOME
       Example.execFile
       (js "!echo hi" ++ [Ch.LF] ++ js "!rm x" ++ [Ch.LF] ++ js "!echo no")
       Example.options 0
     = (Throw (Error (js "Command not allowed: rm x - Command 'rm' is not in the allowlist")),
        1).
Proof.
  split.
  - apply (proj1 C3_first_failure_aborts Example.cwd Example.readFile
             (js "x @q.md y @notes.txt z @missing") Example.base 0
             [(js " @q.md", js "q.md"); (js " @notes.txt", js "notes.txt")]
             []
             (js " @missing", js "missing")
             (js "x Q y done z @missing")
             (Error (js "File not found: missing")));
      [reflexivity | unfold MAX_INCLUDE_DEPTH; lia | reflexivity
      | reflexivity | reflexivity].
  - apply (proj2 C3_first_failure_aborts Example.cwd nat Example.env_PATH
             Example.env_HOME Example.execFile
             (js "!echo hi" ++ [Ch.LF] ++ js "!rm x" ++ [Ch.LF] ++ js "!echo no")
             Example.options 0 1 1
             [(js "!echo hi", js "echo hi")]
             [(Ch.LF :: js "!echo no", js "echo no")]
             (Ch.LF :: js "!rm x", js "rm x")
             (js "hi" ++ [Ch.LF; Ch.LF] ++ js "!rm x" ++ [Ch.LF] ++ js "!echo no")
             (Error (js "Command not allowed: rm x - Command 'rm' is not in the allowlist")));
      reflexivity.
Defined.

(** C8: when a validated command is rejected by the runtime with [killed]
    set, which is how the runtime reports that it terminated the child at
    the timeout, the call throws the timeout error for that command line;
    every other rejection is thrown as a failure that carries the command
    line and the message of the underlying error; the two errors are never
    the same. *)
Theorem C8_timeout_or_failure :
  (forall (cwd : jsstring) (World : Type)
          (env_PATH env_HOME : option jsstring)
          (execFile : World -> jsstring -> list jsstring -> ExecOptions
                      -> completion (jsstring * jsstring) * World)
          (content : jsstring) (options : BashOptions) (w w1 w2 : World)
          (before after : list (jsstring * jsstring))
          (fullMatch line partial : jsstring) (v : ValidationResult)
          (err : js_error),
      is_empty content = false ->
      command_matches None 0 content = before ++ (fullMatch, line) :: after ->
      bashLoop cwd env_PATH env_HOME execFile options before (content, w)
      = (Ok partial, w1) ->
      validateCommand (trim line) = Ok v ->
      allowed v = true ->
      execFile w1 (command v) (args v)
        (execOptions cwd env_PATH env_HOME options) = (Throw err, w2) ->
      processBashCommands cwd env_PATH env_HOME execFile content options w
      = (Throw (if killed err
                then Error (js "Command timeout: " ++ trim line)
                else Error (js "Command failed: " ++ trim line ++ js " - "
                              ++ message err)), w2))
  /\ (forall commandString commandString' msg : jsstring,
         Error (js "Command timeout: " ++ commandString)
         <> Error (js "Command failed: " ++ commandString' ++ js " - " ++ msg)).
Proof.
  split.
  - intros cwd World env_PATH env_HOME execFile content options w w1 w2
      before after fullMatch line partial v err Hne Hm Hb Hv Ha He.
    eapply processBashCommands_abort; [exact Hne | exact Hm | exact Hb |].
    now rewrite (bashMarker_rejected cwd World env_PATH env_HOME execFile
                   options partial w1 w2 fullMatch line v err Hv Ha He).
  - intros. apply timeout_not_failure.
Qed.

Lemma C8_timeout_or_failure_witness :
  processBashCommands Example.cwd Example.env_PATH Example.env_HOME
    Example.execFile (js "!echo hi" ++ [Ch.LF] ++ js "!git status")
    Example.options 0
  = (Throw (Error (js "Command timeout: git status")), 2)
  /\ processBashCommands Example.cwd Example.env_PATH Example.env_HOME
       Example.execFile (js "!echo hi" ++ [Ch.LF] ++ js "!cat x")
       Example.options 0
     = (Throw (Error (js "Command failed: cat x - Command failed: cat")), 2).
Proof.
  split.
  - apply (proj1 C8_timeout_or_failure Example.cwd nat Example.env_PATH
             Example.env_HOME Example.execFile
             (js "!echo hi" ++ [Ch.LF] ++ js "!git status")
             Example.options 0 1 2
             [(js "!echo hi", js "echo hi")] []
             (Ch.LF :: js "!git status") (js "git status")
             (js "hi" ++ [Ch.LF; Ch.LF] ++ js "!git status")
             (mkValidation true (js "git") [js "status"] None)
             (mkError (js "Command failed: git") None true));
      reflexivity.
  - apply (proj1 C8_timeout_or_failure Example.cwd nat Example.env_PATH
             Example.env_HOME Example.execFile
             (js "!echo hi" ++ [Ch.LF] ++ js "!cat x")
             Example.options 0 1 2
             [(js "!echo hi", js "echo hi")] []
             (Ch.LF :: js "!cat x") (js "cat x")
             (js "hi" ++ [Ch.LF; Ch.LF] ++ js "!cat x")
             (mkValidation true (js "cat") [js "x"] None)
             (mkError (js "Command failed: cat") (Some (js "1")) false));
      reflexivity.
Defined.

(* ================================================================== *)
(** * Further properties of the code *)
(* ================================================================== *)

(** ** What a validation result guarantees *)

Lemma forallb_takeWhile (f : code_unit -> bool) (s : jsstring) :
  forallb f (takeWhile f s) = true.
Proof.
  induction s as [|c s IH]; simpl; [reflexivity|].
  destruct (f c) eqn:E; simpl; [now rewrite E | reflexivity].
Qed.

Lemma forallb_rev_true (f : code_unit -> bool) (s : jsstring) :
  forallb f s = true -> forallb f (rev s) = true.
Proof.
  rewrite !forallb_forall. intros H x Hx. apply H. now apply in_rev.
Qed.

(** A base name holds no slash. *)
Lemma basename_no_slash (p : jsstring) :
  forallb (fun c => negb (N.eqb c Ch.SLASH)) (Path.basename p) = true.
Proof.
  unfold Path.basename. apply forallb_rev_true. apply forallb_takeWhile.
Qed.

Lemma dropWhile_all (f : code_unit -> bool) (s : jsstring) :
  forallb f s = true -> dropWhile f s = [].
Proof.
  induction s as [|c s IH]; simpl; [reflexivity|].
  intros H. apply andb_true_iff in H as [Hc Hs]. now rewrite Hc, IH.
Qed.

Lemma trim_blank (s : jsstring) : forallb isWhiteSpace s = true -> trim s = [].
Proof. intros H. unfold trim. now rewrite (dropWhile_all _ s H). Qed.

(** X1: a command line that [validateCommand] allows has a command name that
    is one of the names of the allowlist and holds no slash, no argument of
    it contains one of the characters of the dangerous pattern, and the
    result carries no error. *)
Theorem X1_allowed_is_listed_and_clean (s : jsstring) (v : ValidationResult) :
  validateCommand s = Ok v -> allowed v = true ->
  In (command v) BASH_COMMAND_ALLOWLIST
  /\ forallb (fun c => negb (N.eqb c Ch.SLASH)) (command v) = true
  /\ forallb (fun arg => negb (dangerousPattern arg)) (args v) = true
  /\ error v = None.
Proof.
  intros Hv Ha.
  destruct (validateCommand_allowed s v Hv Ha) as [Hin Hargs].
  split; [now apply includes_In|]. split; [|split; [exact Hargs|]].
  - revert Hv Ha. unfold validateCommand.
    destruct (is_empty (trim s)); [intros [= <-]; discriminate|].
    destruct (ShellQuote.parse (trim s)) as [parsed|e]; [|discriminate].
    cbn [bind].
    destruct (existsb isOperator parsed); [intros [= <-]; discriminate|].
    destruct (stringTokens parsed) as [|cmd rest]; [intros [= <-]; discriminate|].
    destruct (negb (includes BASH_COMMAND_ALLOWLIST (Path.basename cmd)));
      [intros [= <-]; discriminate|].
    destruct (find dangerousPattern rest); intros [= <-]; [discriminate|].
    intros _. apply basename_no_slash.
  - revert Hv Ha. unfold validateCommand.
    destruct (is_empty (trim s)); [intros [= <-]; discriminate|].
    destruct (ShellQuote.parse (trim s)) as [parsed|e]; [|discriminate].
    cbn [bind].
    destruct (existsb isOperator parsed); [intros [= <-]; discriminate|].
    destruct (stringTokens parsed) as [|cmd rest]; [intros [= <-]; discriminate|].
    destruct (negb (includes BASH_COMMAND_ALLOWLIST (Path.basename cmd)));
      [intros [= <-]; discriminate|].
    destruct (find dangerousPattern rest); intros [= <-]; [discriminate|].
    reflexivity.
Qed.

Lemma X1_allowed_is_listed_and_clean_witness :
  validateCommand (js "/usr/bin/git log --oneline")
  = Ok (mkValidation true (js "git") [js "log"; js "--oneline"] None)
  /\ In (js "git") BASH_COMMAND_ALLOWLIST.
Proof.
  assert (Hv : validateCommand (js "/usr/bin/git log --oneline")
               = Ok (mkValidation true (js "git") [js "log"; js "--oneline"]
                       None)) by reflexivity.
  split; [exact Hv|].
  exact (proj1 (X1_allowed_is_listed_and_clean _ _ Hv eq_refl)).
Defined.

(** X2: a command line of white space only, the empty line included, is
    rejected as an empty command, with an empty command name and no
    arguments; the tokenizer is not called. *)
Theorem X2_blank_command_rejected (s : jsstring) :
  forallb isWhiteSpace s = true ->
  validateCommand s = Ok (mkValidation false [] [] (Some (js "Empty command"))).
Proof.
  intros H. unfold validateCommand. now rewrite (trim_blank s H).
Qed.

Lemma X2_blank_command_rejected_witness :
  forallb isWhiteSpace [Ch.SPACE; Ch.TAB; Ch.LF] = true
  /\ validateCommand [Ch.SPACE; Ch.TAB; Ch.LF]
     = Ok (mkValidation false [] [] (Some (js "Empty command"))).
Proof.
  split; [reflexivity|].
  apply (X2_blank_command_rejected [Ch.SPACE; Ch.TAB; Ch.LF]). reflexivity.
Defined.

(** X3: in every result of [validateCommand] the error is present exactly
    when the command is rejected, and a result produced before the command
    name is known (empty line, operator, no string token) has an empty
    command name and no arguments. *)
Theorem X3_error_iff_rejected (s : jsstring) (v : ValidationResult) :
  validateCommand s = Ok v ->
  (allowed v = true <-> error v = None)
  /\ (command v = [] -> allowed v = false).
Proof.
  unfold validateCommand.
  destruct (is_empty (trim s)); [intros [= <-]; split; [split|]; now cbn|].
  destruct (ShellQuote.parse (trim s)) as [parsed|e]; [|discriminate].
  cbn [bind].
  destruct (existsb isOperator parsed);
    [intros [= <-]; split; [split|]; now cbn|].
  destruct (stringTokens parsed) as [|cmd rest];
    [intros [= <-]; split; [split|]; now cbn|].
  destruct (includes BASH_COMMAND_ALLOWLIST (Path.basename cmd)) eqn:Hin;
    cbn [negb]; [|intros [= <-]; split; [split|]; now cbn].
  destruct (find dangerousPattern rest);
    intros [= <-]; (split; [split|]); cbn; try easy.
  intros E. rewrite E in Hin. discriminate.
Qed.

Lemma X3_error_iff_rejected_witness :
  validateCommand (js "rm -rf /")
  = Ok (mkValidation false (js "rm") [js "-rf"; js "/"]
          (Some (js "Command 'rm' is not in the allowlist")))
  /\ (false = true
      <-> Some (js "Command 'rm' is not in the allowlist") = None).
Proof.
  assert (Hv : validateCommand (js "rm -rf /")
               = Ok (mkValidation false (js "rm") [js "-rf"; js "/"]
                       (Some (js "Command 'rm' is not in the allowlist"))))
    by reflexivity.
  split; [exact Hv|].
  exact (proj1 (X3_error_iff_rejected _ _ Hv)).
Defined.

(** ** Sanitizing composes *)

(** X4: sanitizing a concatenation is concatenating the sanitized parts,
    also when the cut falls between the two halves of a surrogate pair. *)
Theorem X4_sanitizeOutput_app (a b : jsstring) :
  sanitizeOutput (a ++ b) = sanitizeOutput a ++ sanitizeOutput b.
Proof. rewrite !sanitizeOutput_filter. apply filter_app. Qed.

Lemma filter_keep_all (f : code_unit -> bool) (s : jsstring) :
  forallb f s = true -> filter f s = s.
Proof.
  induction s as [|c s IH]; simpl; [reflexivity|].
  intros H. apply andb_true_iff in H as [Hc Hs]. now rewrite Hc, IH.
Qed.

Lemma forallb_filter (f : code_unit -> bool) (s : jsstring) :
  forallb f (filter f s) = true.
Proof.
  induction s as [|c s IH]; simpl; [reflexivity|].
  destruct (f c) eqn:E; simpl; [now rewrite E | exact IH].
Qed.

(** X5: the result of [sanitizeOutput] holds only code units that the
    filter keeps, is never longer than the input, and sanitizing it again
    changes nothing. *)
Theorem X5_sanitizeOutput_idempotent (s : jsstring) :
  forallb keepCode (sanitizeOutput s) = true
  /\ length (sanitizeOutput s) <= length s
  /\ sanitizeOutput (sanitizeOutput s) = sanitizeOutput s.
Proof.
  rewrite !sanitizeOutput_filter. split; [apply forallb_filter|]. split.
  - apply filter_length_le.
  - apply filter_keep_all, forallb_filter.
Qed.

(** X6: a text is returned unchanged exactly when it holds no control
    code unit other than tab, line feed and carriage return, and no DEL. *)
Theorem X6_sanitizeOutput_fixpoint (s : jsstring) :
  sanitizeOutput s = s <-> forallb keepCode s = true.
Proof.
  rewrite sanitizeOutput_filter. split.
  - intros E. rewrite <- E. apply forallb_filter.
  - apply filter_keep_all.
Qed.

(** ** Argument substitution on well-behaved input *)

Lemma GetSubstitution_dollar_free (matched before after repl : jsstring) :
  dollar_free repl = true ->
  GetSubstitution matched before after repl = repl.
Proof.
  induction repl as [|c r IH]; [reflexivity|].
  cbn [dollar_free forallb]. intros H. apply andb_true_iff in H as [Hc Hr].
  apply negb_true_iff in Hc. cbn [GetSubstitution]. rewrite Hc.
  f_equal. now apply IH.
Qed.

(** Nothing is replaced in a text without a dollar sign. *)
Lemma replace_global_dollar_free (l repl before s : jsstring) :
  dollar_free s = true ->
  replace_global (Ch.DOLLAR :: l) repl before 0 s = s.
Proof.
  revert before; induction s as [|c t IH]; intros before; [reflexivity|].
  cbn [dollar_free forallb]. intros H. apply andb_true_iff in H as [Hc Ht].
  apply negb_true_iff in Hc. cbn [replace_global startsWith].
  rewrite N.eqb_sym, Hc. cbn [andb]. f_equal. now apply IH.
Qed.

Lemma replace_global_skip (lit repl l before post : jsstring) :
  replace_global lit repl before (length l) (l ++ post)
  = replace_global lit repl (rev l ++ before) 0 post.
Proof.
  revert before; induction l as [|c l IH]; intros before.
  - cbn [length app rev]. now destruct post.
  - cbn [length app rev replace_global]. rewrite IH.
    now rewrite <- app_assoc.
Qed.

(** One occurrence of the placeholder, everything around it free of
    dollar signs: it is replaced, and nothing else. *)
Lemma replace_global_single (l repl before pre post : jsstring) :
  dollar_free pre = true -> dollar_free post = true ->
  replace_global (Ch.DOLLAR :: l) repl before 0
    (pre ++ Ch.DOLLAR :: l ++ post)
  = pre ++ GetSubstitution (Ch.DOLLAR :: l) (rev before ++ pre) post repl
        ++ post.
Proof.
  intros Hpre Hpost. revert before Hpre.
  induction pre as [|c pre IH]; intros before Hpre.
  - cbn [app]. rewrite app_nil_r.
    change (replace_global (Ch.DOLLAR :: l) repl before 0
              (Ch.DOLLAR :: l ++ post))
      with (if startsWith (Ch.DOLLAR :: l) ((Ch.DOLLAR :: l) ++ post)
            then GetSubstitution (Ch.DOLLAR :: l) (rev before)
                   (skipn (length (Ch.DOLLAR :: l)) ((Ch.DOLLAR :: l) ++ post))
                   repl
                 ++ replace_global (Ch.DOLLAR :: l) repl (Ch.DOLLAR :: before)
                      (length (Ch.DOLLAR :: l) - 1) (l ++ post)
            else Ch.DOLLAR
                 :: replace_global (Ch.DOLLAR :: l) repl (Ch.DOLLAR :: before)
                      0 (l ++ post)).
    rewrite startsWith_app.
    rewrite (skipn_app (length (Ch.DOLLAR :: l)) (Ch.DOLLAR :: l) post).
    rewrite skipn_all, Nat.sub_diag. cbn [skipn app].
    change (length (Ch.DOLLAR :: l) - 1) with (length l - 0).
    rewrite Nat.sub_0_r, replace_global_skip.
    now rewrite (replace_global_dollar_free l repl _ post Hpost).
  - cbn [dollar_free forallb] in Hpre.
    apply andb_true_iff in Hpre as [Hc Hpre]. apply negb_true_iff in Hc.
    cbn [app replace_global startsWith]. rewrite N.eqb_sym, Hc. cbn [andb].
    f_equal. rewrite (IH (c :: before) Hpre). cbn [rev].
    now rewrite <- (app_assoc (rev before) [c] pre).
Qed.

(** A different placeholder does not occur. *)
Lemma replace_global_absent (l' repl before pre rest : jsstring) :
  dollar_free pre = true -> dollar_free rest = true ->
  startsWith l' rest = false ->
  replace_global (Ch.DOLLAR :: l') repl before 0 (pre ++ Ch.DOLLAR :: rest)
  = pre ++ Ch.DOLLAR :: rest.
Proof.
  intros Hpre Hrest Hno. revert before Hpre.
  induction pre as [|c pre IH]; intros before Hpre.
  - cbn [app replace_global startsWith]. rewrite N.eqb_refl, Hno. cbn [andb].
    f_equal. now apply replace_global_dollar_free.
  - cbn [dollar_free forallb] in Hpre.
    apply andb_true_iff in Hpre as [Hc Hpre]. apply negb_true_iff in Hc.
    cbn [app replace_global startsWith]. rewrite N.eqb_sym, Hc. cbn [andb].
    f_equal. now apply IH.
Qed.

Lemma dollar_free_app (a b : jsstring) :
  dollar_free (a ++ b) = dollar_free a && dollar_free b.
Proof. apply forallb_app. Qed.

Lemma dollar_free_join (parts : list jsstring) :
  forallb dollar_free parts = true -> dollar_free (join (js " ") parts) = true.
Proof.
  induction parts as [|p rest IH]; [reflexivity|].
  cbn [forallb]. intros H. apply andb_true_iff in H as [Hp Hrest].
  destruct rest as [|q rest']; [exact Hp|].
  change (join (js " ") (p :: q :: rest'))
    with (p ++ js " " ++ join (js " ") (q :: rest')).
  rewrite !dollar_free_app, Hp, (IH Hrest). reflexivity.
Qed.

Lemma dollar_free_nth (parts : list jsstring) (k : nat) :
  forallb dollar_free parts = true -> dollar_free (nth k parts []) = true.
Proof.
  revert k; induction parts as [|p rest IH]; intros k H.
  - now destruct k.
  - cbn [forallb] in H. apply andb_true_iff in H as [Hp Hrest].
    destruct k; [exact Hp | now apply IH].
Qed.

(** The rounds of the loop leave a text without a dollar sign alone. *)
Lemma positional_dollar_free (argsArray : list jsstring) (rounds : list nat)
    (s : jsstring) :
  dollar_free s = true ->
  fold_left (replacePositional argsArray) rounds s = s.
Proof.
  intros Hs. induction rounds as [|i rounds IH]; [reflexivity|].
  cbn [fold_left]. unfold replacePositional at 2, replaceAll, placeholder.
  now rewrite replace_global_dollar_free.
Qed.

Lemma digit_inj (i j : nat) : digit i = digit j -> i = j.
Proof. unfold digit. lia. Qed.

(** The rounds for other digits leave the placeholder [$i] alone. *)
Lemma positional_other (argsArray : list jsstring) (rounds : list nat)
    (i : nat) (pre post : jsstring) :
  dollar_free pre = true -> dollar_free post = true ->
  ~ In i rounds ->
  fold_left (replacePositional argsArray) rounds (pre ++ placeholder i ++ post)
  = pre ++ placeholder i ++ post.
Proof.
  intros Hpre Hpost Hin. induction rounds as [|j rounds IH]; [reflexivity|].
  cbn [fold_left]. unfold replacePositional at 2, replaceAll.
  unfold placeholder at 1 2. cbn [app].
  rewrite replace_global_absent.
  - apply IH. intros F. apply Hin. now right.
  - exact Hpre.
  - cbn [dollar_free forallb]. fold (dollar_free post). rewrite Hpost.
    unfold digit. replace (N.eqb (48 + N.of_nat i) Ch.DOLLAR) with false;
      [reflexivity|]. symmetry. apply N.eqb_neq. unfold Ch.DOLLAR. lia.
  - cbn [startsWith]. replace (N.eqb (digit j) (digit i)) with false;
      [reflexivity|]. symmetry. apply N.eqb_neq. intros E.
    apply digit_inj in E. apply Hin. now left.
Qed.

Lemma seq_split_at (i : nat) :
  1 <= i <= 9 -> seq 1 9 = seq 1 (i - 1) ++ i :: seq (S i) (9 - i).
Proof.
  intros H.
  assert (E : i = 1 \/ i = 2 \/ i = 3 \/ i = 4 \/ i = 5 \/ i = 6 \/ i = 7
              \/ i = 8 \/ i = 9) by lia.
  repeat (destruct E as [-> | E]; [reflexivity|]). now subst.
Qed.

(** X7: a body without a dollar sign comes back unchanged, whatever the
    arguments are. *)
Theorem X7_replaceArguments_no_placeholder (content : jsstring)
    (args : arguments) :
  dollar_free content = true -> replaceArguments content args = content.
Proof.
  intros H. unfold replaceArguments.
  destruct (is_empty content); [reflexivity|].
  unfold replaceAll. change (js "$ARGUMENTS") with (Ch.DOLLAR :: js "ARGUMENTS").
  rewrite replace_global_dollar_free by exact H.
  now apply positional_dollar_free.
Qed.

Lemma X7_replaceArguments_no_placeholder_witness :
  dollar_free (js "no placeholders here") = true
  /\ replaceArguments (js "no placeholders here")
       (ArgArray [js "$1"; js "$&"])
     = js "no placeholders here".
Proof.
  split; [reflexivity|].
  apply (X7_replaceArguments_no_placeholder (js "no placeholders here")).
  reflexivity.
Defined.

Lemma fold_left_ext {A B : Type} (f g : A -> B -> A) (l : list B) (a : A) :
  (forall x y, f x y = g x y) -> fold_left f l a = fold_left g l a.
Proof.
  intros H. revert a; induction l as [|y l IH]; intros a; [reflexivity|].
  cbn [fold_left]. now rewrite H, IH.
Qed.

(** X8: a string argument behaves as the array that holds just it; the
    empty string, which the code normalizes to the empty array, behaves as
    the array that holds the empty string. *)
Theorem X8_replaceArguments_scalar (content s : jsstring) :
  replaceArguments content (ArgString s)
  = replaceArguments content (ArgArray [s]).
Proof.
  unfold replaceArguments. destruct (is_empty content); [reflexivity|].
  destruct s as [|c s]; [|reflexivity].
  cbn [argsArray_of is_empty join].
  apply fold_left_ext. intros x i. unfold replacePositional.
  now destruct (i - 1) as [|[|k]].
Qed.

(** X9: in a body whose only dollar sign opens one positional placeholder
    [$i], with arguments that hold no dollar sign, the placeholder is
    replaced by argument [i], or by nothing when there is no such argument,
    and the text around it is kept. *)
Theorem X9_replaceArguments_positional (pre post : jsstring)
    (argsArray : list jsstring) (i : nat) :
  1 <= i <= 9 ->
  dollar_free pre = true -> dollar_free post = true ->
  forallb dollar_free argsArray = true ->
  replaceArguments (pre ++ placeholder i ++ post) (ArgArray argsArray)
  = pre ++ nth (i - 1) argsArray [] ++ post.
Proof.
  intros Hi Hpre Hpost Hargs. unfold replaceArguments.
  replace (is_empty (pre ++ placeholder i ++ post)) with false
    by now destruct pre.
  cbn [argsArray_of]. unfold replaceAll.
  change (js "$ARGUMENTS") with (Ch.DOLLAR :: js "ARGUMENTS").
  unfold placeholder at 1. cbn [app].
  rewrite replace_global_absent; [| exact Hpre | |].
  - rewrite (seq_split_at i Hi), fold_left_app.
    change (pre ++ Ch.DOLLAR :: digit i :: post)
      with (pre ++ placeholder i ++ post).
    rewrite positional_other; [| exact Hpre | exact Hpost |].
    + cbn [fold_left]. unfold replacePositional at 2, replaceAll.
      unfold placeholder. cbn [app].
      rewrite (replace_global_single [digit i] _ [] pre post Hpre Hpost).
      rewrite GetSubstitution_dollar_free by now apply dollar_free_nth.
      apply positional_dollar_free.
      rewrite !dollar_free_app, Hpre, Hpost, dollar_free_nth by exact Hargs.
      reflexivity.
    + rewrite in_seq. lia.
  - cbn [dollar_free forallb]. fold (dollar_free post). rewrite Hpost.
    unfold digit. replace (N.eqb (48 + N.of_nat i) Ch.DOLLAR) with false;
      [reflexivity|]. symmetry. apply N.eqb_neq. unfold Ch.DOLLAR. lia.
  - change (js "ARGUMENTS") with (65%N :: js "RGUMENTS"). cbn [startsWith].
    replace (N.eqb 65 (digit i)) with false; [reflexivity|].
    symmetry. apply N.eqb_neq. unfold digit. lia.
Qed.

Lemma X9_replaceArguments_positional_witness :
  replaceArguments (js "Hello $2!") (ArgArray [js "a"; js "world"])
  = js "Hello world!".
Proof.
  apply (X9_replaceArguments_positional (js "Hello ") (js "!")
           [js "a"; js "world"] 2); [lia | reflexivity..].
Defined.

(** X10: in a body whose only dollar sign opens one [$ARGUMENTS], with
    arguments that hold no dollar sign, the placeholder is replaced by the
    arguments joined with single spaces, and the text around it is kept. *)
Theorem X10_replaceArguments_all (pre post : jsstring)
    (argsArray : list jsstring) :
  dollar_free pre = true -> dollar_free post = true ->
  forallb dollar_free argsArray = true ->
  replaceArguments (pre ++ js "$ARGUMENTS" ++ post) (ArgArray argsArray)
  = pre ++ join (js " ") argsArray ++ post.
Proof.
  intros Hpre Hpost Hargs. unfold replaceArguments.
  replace (is_empty (pre ++ js "$ARGUMENTS" ++ post)) with false
    by now destruct pre.
  cbn [argsArray_of]. unfold replaceAll.
  change (js "$ARGUMENTS") with (Ch.DOLLAR :: js "ARGUMENTS"). cbn [app].
  rewrite (replace_global_single (js "ARGUMENTS") _ [] pre post Hpre Hpost).
  rewrite GetSubstitution_dollar_free by now apply dollar_free_join.
  apply positional_dollar_free.
  rewrite !dollar_free_app, Hpre, Hpost, dollar_free_join by exact Hargs.
  reflexivity.
Qed.

Lemma X10_replaceArguments_all_witness :
  replaceArguments (js "run: $ARGUMENTS.") (ArgArray [js "a"; js "b c"])
  = js "run: a b c.".
Proof.
  apply (X10_replaceArguments_all (js "run: ") (js ".") [js "a"; js "b c"]);
    reflexivity.
Defined.

(** ** What the path guard accepts lies inside the base directory *)

Module GuardInside.
Import Path PathSpec PathFacts.

Lemma strip_common_spec (f t : list jsstring) :
  exists pre, f = pre ++ fst (strip_common f t)
              /\ t = pre ++ snd (strip_common f t).
Proof.
  revert t; induction f as [|x f IH]; intros t.
  - exists []. now destruct t.
  - destruct t as [|y t]; [now exists []|].
    cbn [strip_common]. destruct (str_eqb x y) eqn:E.
    + apply str_eqb_eq in E. subst y.
      destruct (IH t) as [pre [Hf Ht]]. exists (x :: pre).
      cbn [app]. now rewrite <- Hf, <- Ht.
    + now exists [].
Qed.

Section Absolute.
Variable cwd : jsstring.
Hypothesis cwd_absolute : isAbsolute cwd = true.

Lemma resolve_loop_absolute (l : list jsstring) (acc : jsstring) :
  snd (resolve_loop cwd l acc) = true.
Proof.
  revert acc; induction l as [|p l IH]; intros acc; cbn [resolve_loop].
  - destruct cwd; [discriminate|]. cbn [is_empty snd]. exact cwd_absolute.
  - destruct (is_empty p); [apply IH|].
    destruct (isAbsolute p); [reflexivity | apply IH].
Qed.

(** Every resolved path is a slash followed by plain segments. *)
Lemma resolve_normal_form (args : list jsstring) :
  exists T, Forall plain T /\ resolve cwd args = sep ++ join sep T.
Proof.
  unfold resolve.
  pose proof (resolve_loop_absolute (rev args) []) as Habs.
  destruct (resolve_loop cwd (rev args) []) as [P abs]. cbn [snd] in Habs.
  subst abs. cbn [negb].
  exists (normalize_segments false P). split; [|reflexivity].
  unfold normalize_segments. apply Forall_rev.
  apply fold_norm_plain; [constructor | apply split_no_slash].
Qed.

(** The relative path between two normalized absolute paths. *)
Lemma relative_normal_forms (B T : list jsstring) :
  Forall plain B -> Forall plain T ->
  relative cwd (sep ++ join sep B) (sep ++ join sep T)
  = if str_eqb (sep ++ join sep B) (sep ++ join sep T) then []
    else join sep (map (fun _ => dotdot) (fst (strip_common B T))
                     ++ snd (strip_common B T)).
Proof.
  intros HB HT. unfold relative.
  destruct (str_eqb (sep ++ join sep B) (sep ++ join sep T)) eqn:E;
    [reflexivity|].
  rewrite !resolve_normal by assumption. rewrite E.
  rewrite !segments_normal by assumption.
  now destruct (strip_common B T).
Qed.

Lemma join_dotdot_prefix (ups rest : list jsstring) :
  ups <> [] ->
  startsWith (js "..") (join sep (map (fun _ => dotdot) ups ++ rest)) = true.
Proof.
  destruct ups as [|u ups]; [contradiction|]. intros _.
  cbn [map app]. destruct (map (fun _ => dotdot) ups ++ rest); reflexivity.
Qed.

Lemma isPathSafe_inside (file base : jsstring) :
  isPathSafe cwd file base = true ->
  exists down : list jsstring,
    down <> [] /\ Forall plain down
    /\ resolve cwd [base; file]
       = sep ++ join sep (rev (base_stack cwd base) ++ down)
    /\ relative cwd (resolve cwd [base]) (resolve cwd [base; file])
       = join sep down.
Proof.
  unfold isPathSafe. rewrite (resolve_base cwd cwd_absolute).
  destruct (resolve_normal_form [base; file]) as [T [HT ->]].
  pose proof (base_stack_plain cwd base) as HB. apply Forall_rev in HB.
  set (B := rev (base_stack cwd base)) in *.
  rewrite (relative_normal_forms B T HB HT).
  destruct (str_eqb (sep ++ join sep B) (sep ++ join sep T)) eqn:E;
    [discriminate|].
  destruct (strip_common_spec B T) as [pre [HBp HTp]].
  destruct (strip_common B T) as [up down]. cbn [fst snd] in *.
  destruct up as [|u up'].
  - rewrite app_nil_r in HBp. subst pre. cbn [map app].
    intros _. exists down. repeat split.
    + intros ->. rewrite app_nil_r in HTp. subst T.
      now rewrite str_eqb_refl in E.
    + rewrite HTp in HT. now apply Forall_app in HT.
    + now rewrite HTp.
  - rewrite (join_dotdot_prefix (u :: up') down) by discriminate.
    rewrite andb_false_r. discriminate.
Qed.

End Absolute.
End GuardInside.

(** X11: with an absolute working directory, every candidate the path
    guard accepts resolves to the resolved base directory followed by at
    least one further segment, none of them empty, [.] or [..]: an accepted
    path is strictly inside the base, and its relative path is made of
    exactly these segments. *)
Theorem X11_isPathSafe_inside (cwd file base : jsstring) :
  Path.isAbsolute cwd = true ->
  isPathSafe cwd file base = true ->
  exists down : list jsstring,
    down <> [] /\ Forall PathSpec.plain down
    /\ Path.resolve cwd [base]
       = Path.sep ++ join Path.sep (rev (PathSpec.base_stack cwd base))
    /\ Path.resolve cwd [base; file]
       = Path.sep ++ join Path.sep (rev (PathSpec.base_stack cwd base) ++ down)
    /\ Path.relative cwd (Path.resolve cwd [base]) (Path.resolve cwd [base; file])
       = join Path.sep down.
Proof.
  intros Habs Hsafe.
  destruct (GuardInside.isPathSafe_inside cwd Habs file base Hsafe)
    as (down & Hne & Hp & Hres & Hrel).
  exists down. repeat split; try assumption.
  apply (PathFacts.resolve_base cwd Habs).
Qed.

Lemma X11_isPathSafe_inside_witness :
  Path.isAbsolute Example.cwd = true
  /\ isPathSafe Example.cwd (js "docs/../notes/./a.md") Example.base = true
  /\ exists down : list jsstring,
       down <> []
       /\ Path.resolve Example.cwd [Example.base; js "docs/../notes/./a.md"]
          = Path.sep
            ++ join Path.sep
                 (rev (PathSpec.base_stack Example.cwd Example.base) ++ down).
Proof.
  assert (Habs : Path.isAbsolute Example.cwd = true) by reflexivity.
  assert (Hsafe : isPathSafe Example.cwd (js "docs/../notes/./a.md")
                    Example.base = true) by reflexivity.
  destruct (X11_isPathSafe_inside Example.cwd (js "docs/../notes/./a.md")
              Example.base Habs Hsafe) as (down & Hne & _ & _ & Hres & _).
  split; [exact Habs|]. split; [exact Hsafe|]. exists down. now split.
Defined.

(** X12: with an absolute working directory and for every base directory,
    a candidate made of one or more segments that are not empty, not [.]
    and not [..] is accepted unless its text begins with the two characters
    [..]; it resolves to the base followed by these segments. *)
Theorem X12_isPathSafe_plain (cwd base : jsstring) (segs : list jsstring) :
  Path.isAbsolute cwd = true ->
  Forall PathSpec.plain segs -> segs <> [] ->
  isPathSafe cwd (join Path.sep segs) base
  = negb (startsWith (js "..") (join Path.sep segs))
  /\ Path.resolve cwd [base; join Path.sep segs]
     = Path.sep ++ join Path.sep (rev (PathSpec.base_stack cwd base) ++ segs).
Proof.
  intros Habs Hs Hne. split.
  - now apply GuardFacts.isPathSafe_plain_child.
  - now apply GuardFacts.resolve_plain_child.
Qed.

Lemma X12_isPathSafe_plain_witness :
  Path.isAbsolute Example.cwd = true
  /\ isPathSafe Example.cwd (js "src/lib/util.js") Example.base = true
  /\ Path.resolve Example.cwd [Example.base; js "src/lib/util.js"]
     = js "/base/src/lib/util.js".
Proof.
  assert (Habs : Path.isAbsolute Example.cwd = true) by reflexivity.
  assert (Hp : Forall PathSpec.plain [js "src"; js "lib"; js "util.js"])
    by (repeat constructor).
  assert (Hne : [js "src"; js "lib"; js "util.js"] <> []) by discriminate.
  destruct (X12_isPathSafe_plain Example.cwd Example.base
              [js "src"; js "lib"; js "util.js"] Habs Hp Hne) as [Hsafe Hres].
  split; [exact Habs|]. split; [exact Hsafe | exact Hres].
Defined.

(** ** Include resolution: markers, errors, depth *)

(** Without an at sign there is no include marker. *)
Lemma include_matches_no_at (s : jsstring) (prev : option code_unit)
    (skip : nat) :
  forallb (fun c => negb (N.eqb c Ch.AT)) s = true ->
  include_matches prev skip s = [].
Proof.
  revert prev skip; induction s as [|c t IH]; intros prev skip H;
    [reflexivity|].
  cbn [forallb] in H. apply andb_true_iff in H as [Hc Ht].
  apply negb_true_iff in Hc. cbn [include_matches].
  destruct skip as [|k]; [|now apply IH].
  rewrite Hc, andb_false_r.
  destruct t as [|d t']; [reflexivity|].
  cbn [forallb] in Ht. apply andb_true_iff in Ht as [Hd Ht'].
  apply negb_true_iff in Hd. rewrite Hd, andb_false_r.
  apply IH. cbn [forallb]. now rewrite Hd, Ht'.
Qed.

Lemma include_matches_skip_all (s : jsstring) (prev : option code_unit)
    (skip : nat) :
  length s <= skip -> include_matches prev skip s = [].
Proof.
  revert prev skip; induction s as [|c t IH]; intros prev skip H;
    [reflexivity|].
  destruct skip as [|k]; [simpl in H; lia|].
  cbn [include_matches]. apply IH. simpl in H. lia.
Qed.

Lemma takeWhile_all (f : code_unit -> bool) (s : jsstring) :
  forallb f s = true -> takeWhile f s = s.
Proof.
  induction s as [|c s IH]; simpl; [reflexivity|].
  intros H. apply andb_true_iff in H as [Hc Hs]. now rewrite Hc, IH.
Qed.

(** The text [@name] is one marker. *)
Lemma include_matches_marker (name : jsstring) :
  is_empty name = false -> forallb notWhiteSpace name = true ->
  include_matches None 0 (Ch.AT :: name) = [(Ch.AT :: name, name)].
Proof.
  intros Hne Hws. cbn [include_matches].
  rewrite N.eqb_refl. cbn [andb]. rewrite (takeWhile_all _ name Hws).
  destruct name as [|c name']; [discriminate|].
  now rewrite include_matches_skip_all.
Qed.

Lemma startsWith_refl (s : jsstring) : startsWith s s = true.
Proof.
  induction s as [|c s IH]; [reflexivity|].
  cbn [startsWith]. now rewrite N.eqb_refl, IH.
Qed.

(** A text occurs in itself, at the start. *)
Lemma find_first_self (s : jsstring) : find_first s s = Some ([], []).
Proof.
  destruct s as [|c s]; [reflexivity|].
  cbn [find_first]. rewrite startsWith_refl.
  now rewrite skipn_all.
Qed.

Lemma includeHandler_code (filename : jsstring) (e : js_error) :
  code (includeHandler filename e) <> Some (js "ENOENT").
Proof.
  unfold includeHandler. destruct (code e) as [c|] eqn:Ec.
  - destruct (str_eqb c (js "ENOENT")) eqn:E; [discriminate|].
    rewrite Ec. intros [= ->]. now rewrite str_eqb_refl in E.
  - now rewrite Ec.
Qed.

Lemma for_of_throw {A S : Type} (step : S -> A -> completion S)
    (items : list A) (acc : S) (e : js_error) :
  for_of step items acc = Throw e ->
  exists acc' x, In x items /\ step acc' x = Throw e.
Proof.
  revert acc; induction items as [|x items IH]; intros acc; [discriminate|].
  cbn [for_of]. destruct (step acc x) as [acc1|e1] eqn:E; cbn [bind].
  - intros H. destruct (IH acc1 H) as (acc' & y & Hin & Hy).
    exists acc', y. split; [now right | assumption].
  - intros [= ->]. exists acc, x. split; [now left | assumption].
Qed.

Section IncludeFacts.

Variable cwd : jsstring.
Variable readFile : jsstring -> completion jsstring.

Local Abbreviation includes := (processFileIncludes cwd readFile).

Lemma includeMarker_code (recurse : jsstring -> completion jsstring)
    (basePath partial : jsstring) (m : jsstring * jsstring) (e : js_error) :
  includeMarker cwd readFile recurse basePath partial m = Throw e ->
  code e <> Some (js "ENOENT").
Proof.
  unfold includeMarker. destruct m as [fullMatch filename].
  destruct (negb (isPathSafe cwd filename basePath));
    [intros [= <-]; discriminate|].
  destruct (readFile (Path.resolve cwd [basePath; filename])) as [fc|e0];
    cbn [bind try_catch].
  - destruct (recurse fc) as [pc|e1]; cbn [bind try_catch]; [discriminate|].
    intros [= <-]. apply includeHandler_code.
  - intros [= <-]. apply includeHandler_code.
Qed.

Lemma processFileIncludes_no_ENOENT (content basePath : jsstring)
    (depth : nat) (e : js_error) :
  includes content basePath depth = Throw e ->
  code e <> Some (js "ENOENT").
Proof.
  rewrite processFileIncludes_eq.
  destruct (is_empty content); [discriminate|].
  destruct (MAX_INCLUDE_DEPTH <=? depth); [intros [= <-]; discriminate|].
  destruct (include_matches None 0 content) as [|m ms]; [discriminate|].
  intros H. apply for_of_throw in H as (acc' & x & _ & Hx).
  now apply includeMarker_code in Hx.
Qed.

Lemma processFileIncludes_no_at (content basePath : jsstring) (depth : nat) :
  forallb (fun c => negb (N.eqb c Ch.AT)) content = true ->
  depth < MAX_INCLUDE_DEPTH ->
  includes content basePath depth = Ok content.
Proof.
  intros Hat Hd. rewrite processFileIncludes_eq.
  apply Nat.leb_gt in Hd. rewrite Hd.
  rewrite (include_matches_no_at content None 0 Hat).
  now destruct (is_empty content).
Qed.

End IncludeFacts.

(** X13: below the maximum depth a text without an at sign is returned
    unchanged, whatever the files are. *)
Theorem X13_no_marker_unchanged (cwd : jsstring)
    (readFile : jsstring -> completion jsstring)
    (content basePath : jsstring) (depth : nat) :
  forallb (fun c => negb (N.eqb c Ch.AT)) content = true ->
  depth < MAX_INCLUDE_DEPTH ->
  processFileIncludes cwd readFile content basePath depth = Ok content.
Proof. apply processFileIncludes_no_at. Qed.

Lemma X13_no_marker_unchanged_witness :
  processFileIncludes Example.cwd Example.readFile (js "plain text, no marker")
    Example.base 2
  = Ok (js "plain text, no marker").
Proof.
  apply X13_no_marker_unchanged; [reflexivity | unfold MAX_INCLUDE_DEPTH; lia].
Defined.

(** X14: an error thrown by [processFileIncludes] never has the code
    [ENOENT]: a missing file, at any level of nesting, is reported as a new
    error that names the file and has no code. *)
Theorem X14_no_ENOENT_escapes (cwd : jsstring)
    (readFile : jsstring -> completion jsstring)
    (content basePath : jsstring) (depth : nat) (e : js_error) :
  processFileIncludes cwd readFile content basePath depth = Throw e ->
  code e <> Some (js "ENOENT").
Proof. apply processFileIncludes_no_ENOENT. Qed.

Lemma X14_no_ENOENT_escapes_witness :
  processFileIncludes Example.cwd Example.readFile (js "see @missing.md")
    Example.base 0
  = Throw (Error (js "File not found: missing.md"))
  /\ code (Error (js "File not found: missing.md")) <> Some (js "ENOENT").
Proof.
  assert (H : processFileIncludes Example.cwd Example.readFile
                (js "see @missing.md") Example.base 0
              = Throw (Error (js "File not found: missing.md")))
    by reflexivity.
  split; [exact H|].
  exact (X14_no_ENOENT_escapes _ _ _ _ _ _ H).
Defined.

(** X15: at depth 3 or deeper every non-empty text is refused with the
    depth error, with or without markers in it and whatever the files are,
    while the empty text is returned at any depth. *)
Theorem X15_depth_guard (cwd : jsstring)
    (readFile : jsstring -> completion jsstring)
    (content basePath : jsstring) (depth : nat) :
  MAX_INCLUDE_DEPTH <= depth ->
  processFileIncludes cwd readFile content basePath depth
  = if is_empty content then Ok content
    else Throw (Error (js "Maximum include depth (3) exceeded")).
Proof.
  intros Hd. destruct (is_empty content) eqn:E.
  - now rewrite processFileIncludes_eq, E.
  - now apply processFileIncludes_depth.
Qed.

Lemma X15_depth_guard_witness :
  processFileIncludes Example.cwd Example.readFile (js "no marker") Example.base 3
  = Throw (Error (js "Maximum include depth (3) exceeded")).
Proof.
  apply (X15_depth_guard Example.cwd Example.readFile (js "no marker")
           Example.base 3).
  unfold MAX_INCLUDE_DEPTH. lia.
Defined.

(** X16: a marker whose name the path guard rejects ends the call with the
    traversal error that names it, once the markers before it have been
    resolved; the file system is not asked about that name. *)
Theorem X16_unsafe_marker_rejected (cwd : jsstring)
    (readFile : jsstring -> completion jsstring)
    (content basePath : jsstring) (depth : nat)
    (before after : list (jsstring * jsstring))
    (fullMatch filename partial : jsstring) :
  depth < MAX_INCLUDE_DEPTH ->
  include_matches None 0 content = before ++ (fullMatch, filename) :: after ->
  for_of
    (includeMarker cwd readFile
       (fun fileContent =>
          processFileIncludes cwd readFile fileContent basePath (depth + 1))
       basePath)
    before content = Ok partial ->
  isPathSafe cwd filename basePath = false ->
  processFileIncludes cwd readFile content basePath depth
  = Throw (Error (js "Invalid file path (directory traversal detected): "
                    ++ filename)).
Proof.
  intros Hd Hm Hb Hsafe.
  eapply processFileIncludes_abort; [| exact Hd | exact Hm | exact Hb |].
  - destruct content; [|reflexivity]. now destruct before.
  - unfold includeMarker. now rewrite Hsafe.
Qed.

Lemma X16_unsafe_marker_rejected_witness :
  processFileIncludes Example.cwd Example.readFile
    (js "x @q.md y @../../etc/passwd") Example.base 0
  = Throw (Error (js "Invalid file path (directory traversal detected): ../../etc/passwd")).
Proof.
  apply (X16_unsafe_marker_rejected Example.cwd Example.readFile
           (js "x @q.md y @../../etc/passwd") Example.base 0
           [(js " @q.md", js "q.md")] []
           (js " @../../etc/passwd") (js "../../etc/passwd")
           (js "x Q y @../../etc/passwd"));
    [unfold MAX_INCLUDE_DEPTH; lia | reflexivity..].
Defined.

(** X17: a text that is exactly one marker [@name], for a name the guard
    accepts and a file that can be read, becomes the content of that file
    as resolved one level deeper, provided this content holds no dollar
    sign (the content is handed to [String.replace] as a replacement
    pattern). *)
Theorem X17_single_marker_resolved (cwd : jsstring)
    (readFile : jsstring -> completion jsstring)
    (name basePath fileContent processedContent : jsstring) (depth : nat) :
  depth < MAX_INCLUDE_DEPTH ->
  is_empty name = false -> forallb notWhiteSpace name = true ->
  isPathSafe cwd name basePath = true ->
  readFile (Path.resolve cwd [basePath; name]) = Ok fileContent ->
  processFileIncludes cwd readFile fileContent basePath (depth + 1)
  = Ok processedContent ->
  dollar_free processedContent = true ->
  processFileIncludes cwd readFile (Ch.AT :: name) basePath depth
  = Ok processedContent.
Proof.
  intros Hd Hne Hws Hsafe Hread Hrec Hdf.
  rewrite processFileIncludes_eq. cbn [is_empty].
  apply Nat.leb_gt in Hd. rewrite Hd.
  rewrite (include_matches_marker name Hne Hws).
  cbn [for_of]. unfold includeMarker. rewrite Hsafe. cbn [negb].
  rewrite Hread. cbn [bind]. rewrite Hrec. cbn [bind try_catch].
  f_equal. unfold replace.
  change (startsWith (js " ") (Ch.AT :: name)) with false. cbv iota.
  replace (find_first (Ch.AT :: name) (Ch.AT :: name))
    with (Some (@nil code_unit, @nil code_unit)).
  - cbn [app]. rewrite app_nil_r.
    now apply GetSubstitution_dollar_free.
  - symmetry. apply find_first_self.
Qed.

Lemma X17_single_marker_resolved_witness :
  processFileIncludes Example.cwd Example.readFile (js "@p.md") Example.base 0
  = Ok (js "P: Q").
Proof.
  apply (X17_single_marker_resolved Example.cwd Example.readFile
           (js "p.md") Example.base (js "P: @q.md") (js "P: Q") 0);
    [unfold MAX_INCLUDE_DEPTH; lia | reflexivity..].
Defined.

(** ** Command execution: what is run, and what is spliced in *)

Lemma command_matches_no_bang (s : jsstring) (prev : option code_unit)
    (skip : nat) :
  forallb (fun c => negb (N.eqb c Ch.BANG)) s = true ->
  command_matches prev skip s = [].
Proof.
  revert prev skip; induction s as [|c t IH]; intros prev skip H;
    [reflexivity|].
  cbn [forallb] in H. apply andb_true_iff in H as [Hc Ht].
  apply negb_true_iff in Hc. cbn [command_matches].
  destruct skip as [|k]; [|now apply IH].
  rewrite Hc, andb_false_r.
  destruct t as [|d t']; [reflexivity|].
  cbn [forallb] in Ht. apply andb_true_iff in Ht as [Hd Ht'].
  apply negb_true_iff in Hd. rewrite Hd, andb_false_r.
  apply IH. cbn [forallb]. now rewrite Hd, Ht'.
Qed.

Lemma command_matches_skip_all (s : jsstring) (prev : option code_unit)
    (skip : nat) :
  length s <= skip -> command_matches prev skip s = [].
Proof.
  revert prev skip; induction s as [|c t IH]; intros prev skip H;
    [reflexivity|].
  destruct skip as [|k]; [simpl in H; lia|].
  cbn [command_matches]. apply IH. simpl in H. lia.
Qed.

(** The text [!line], one line long, is one marker. *)
Lemma command_matches_marker (line : jsstring) :
  is_empty line = false ->
  forallb (fun c => negb (isLineTerminator c)) line = true ->
  command_matches None 0 (Ch.BANG :: line) = [(Ch.BANG :: line, line)].
Proof.
  intros Hne Hlt. cbn [command_matches]. rewrite N.eqb_refl. cbn [andb].
  unfold command_line. rewrite (takeWhile_all _ line Hlt).
  destruct line as [|c line']; [discriminate|].
  rewrite skipn_all. now rewrite command_matches_skip_all.
Qed.

Section BashFacts.

Variable cwd : jsstring.
Variable World : Type.
Variables env_PATH env_HOME : option jsstring.

Local Abbreviation machine :=
  (World -> jsstring -> list jsstring -> ExecOptions
   -> completion (jsstring * jsstring) * World).

(** Two machines that run the allowlisted commands with clean arguments
    alike are told apart by no marker. *)
Lemma bashMarker_listed_only (execFile1 execFile2 : machine)
    (options : BashOptions) (st : jsstring * World)
    (m : jsstring * jsstring) :
  (forall w file args o,
      In file BASH_COMMAND_ALLOWLIST ->
      forallb (fun arg => negb (dangerousPattern arg)) args = true ->
      execFile1 w file args o = execFile2 w file args o) ->
  bashMarker cwd env_PATH env_HOME execFile1 options st m
  = bashMarker cwd env_PATH env_HOME execFile2 options st m.
Proof.
  intros Hsame. unfold bashMarker. destruct st as [partial w].
  destruct m as [fullMatch line].
  destruct (validateCommand (trim line)) as [v|e] eqn:Hv; [|reflexivity].
  destruct (allowed v) eqn:Ha; cbn [negb]; [|reflexivity].
  destruct (validateCommand_allowed (trim line) v Hv Ha) as [Hin Hargs].
  apply includes_In in Hin.
  now rewrite (Hsame w (command v) (args v) _ Hin Hargs).
Qed.

Lemma bashLoop_listed_only (execFile1 execFile2 : machine)
    (options : BashOptions) (matches : list (jsstring * jsstring))
    (st : jsstring * World) :
  (forall w file args o,
      In file BASH_COMMAND_ALLOWLIST ->
      forallb (fun arg => negb (dangerousPattern arg)) args = true ->
      execFile1 w file args o = execFile2 w file args o) ->
  bashLoop cwd env_PATH env_HOME execFile1 options matches st
  = bashLoop cwd env_PATH env_HOME execFile2 options matches st.
Proof.
  intros Hsame. revert st; induction matches as [|m rest IH]; intros st;
    [reflexivity|].
  cbn [bashLoop].
  rewrite (bashMarker_listed_only execFile1 execFile2 options st m Hsame).
  destruct (bashMarker cwd env_PATH env_HOME execFile2 options st m)
    as [[st'|e] w']; [apply IH | reflexivity].
Qed.

End BashFacts.

(** X18: a text without an exclamation mark is returned unchanged and no
    command is run: the state of the machine is the one given. *)
Theorem X18_no_command_marker (cwd : jsstring) (World : Type)
    (env_PATH env_HOME : option jsstring)
    (execFile : World -> jsstring -> list jsstring -> ExecOptions
                -> completion (jsstring * jsstring) * World)
    (content : jsstring) (options : BashOptions) (w : World) :
  forallb (fun c => negb (N.eqb c Ch.BANG)) content = true ->
  processBashCommands cwd env_PATH env_HOME execFile content options w
  = (Ok content, w).
Proof.
  intros H. unfold processBashCommands.
  rewrite (command_matches_no_bang content None 0 H).
  now destruct (is_empty content).
Qed.

Lemma X18_no_command_marker_witness :
  processBashCommands Example.cwd Example.env_PATH Example.env_HOME
    Example.execFile (js "echo hi, but no marker") Example.options 7
  = (Ok (js "echo hi, but no marker"), 7).
Proof. apply X18_no_command_marker. reflexivity. Defined.

(** X19: nothing but a command of the allowlist, with arguments free of
    the dangerous characters, is ever run: two machines that behave alike
    on such invocations give the same text, the same error and the same
    final state for every body, however they differ elsewhere. *)
Theorem X19_only_listed_commands_run (cwd : jsstring) (World : Type)
    (env_PATH env_HOME : option jsstring)
    (execFile1 execFile2 : World -> jsstring -> list jsstring -> ExecOptions
                           -> completion (jsstring * jsstring) * World)
    (content : jsstring) (options : BashOptions) (w : World) :
  (forall w file args o,
      In file BASH_COMMAND_ALLOWLIST ->
      forallb (fun arg => negb (dangerousPattern arg)) args = true ->
      execFile1 w file args o = execFile2 w file args o) ->
  processBashCommands cwd env_PATH env_HOME execFile1 content options w
  = processBashCommands cwd env_PATH env_HOME execFile2 content options w.
Proof.
  intros Hsame. unfold processBashCommands.
  destruct (is_empty content); [reflexivity|].
  destruct (command_matches None 0 content) as [|m ms]; [reflexivity|].
  now apply bashLoop_listed_only.
Qed.

Lemma X19_only_listed_commands_run_witness :
  processBashCommands Example.cwd Example.env_PATH Example.env_HOME
    Example.execFile (js "!echo hi" ++ [Ch.LF] ++ js "!cat x")
    Example.options 0
  = processBashCommands Example.cwd Example.env_PATH Example.env_HOME
      Example.execFileListed (js "!echo hi" ++ [Ch.LF] ++ js "!cat x")
      Example.options 0.
Proof.
  apply X19_only_listed_commands_run.
  intros w file args o Hin _. unfold Example.execFileListed.
  apply includes_In in Hin. now rewrite Hin.
Defined.

(** X20: a body that is exactly one marker [!line] whose command passes
    validation and runs to the end becomes the sanitized standard output,
    or the sanitized standard error when the standard output is empty,
    provided this text holds no dollar sign (it is handed to
    [String.replace] as a replacement pattern); the state of the machine is
    the one the command left. *)
Theorem X20_single_command_output (cwd : jsstring) (World : Type)
    (env_PATH env_HOME : option jsstring)
    (execFile : World -> jsstring -> list jsstring -> ExecOptions
                -> completion (jsstring * jsstring) * World)
    (line : jsstring) (options : BashOptions) (w w' : World)
    (v : ValidationResult) (stdout stderr : jsstring) :
  is_empty line = false ->
  forallb (fun c => negb (isLineTerminator c)) line = true ->
  validateCommand (trim line) = Ok v -> allowed v = true ->
  execFile w (command v) (args v) (execOptions cwd env_PATH env_HOME options)
  = (Ok (stdout, stderr), w') ->
  dollar_free (sanitizeOutput (or_else stdout (or_else stderr []))) = true ->
  processBashCommands cwd env_PATH env_HOME execFile (Ch.BANG :: line)
    options w
  = (Ok (sanitizeOutput (or_else stdout (or_else stderr []))), w').
Proof.
  intros Hne Hlt Hv Ha He Hdf. unfold processBashCommands. cbn [is_empty].
  rewrite (command_matches_marker line Hne Hlt).
  cbn [bashLoop]. unfold bashMarker. rewrite Hv, Ha. cbn [negb].
  rewrite He. cbn [bind try_catch fst snd].
  change (startsWith [Ch.LF] (Ch.BANG :: line)) with false. cbv iota.
  unfold replace. rewrite find_first_self. cbn [app]. rewrite app_nil_r.
  now rewrite GetSubstitution_dollar_free.
Qed.

Lemma X20_single_command_output_witness :
  processBashCommands Example.cwd Example.env_PATH Example.env_HOME
    Example.execFile (js "!echo 'hello  world'") Example.options 0
  = (Ok (js "hello  world" ++ [Ch.LF]), 1).
Proof.
  apply (X20_single_command_output Example.cwd nat Example.env_PATH
           Example.env_HOME Example.execFile (js "echo 'hello  world'")
           Example.options 0 1
           (mkValidation true (js "echo") [js "hello  world"] None)
           (js "hello  world" ++ [Ch.LF]) []);
    reflexivity.
Defined.

(** X21: a marker whose command is rejected by validation ends the call
    with the error that quotes the command line and the reason, and the
    command is not run: the state of the machine is the one the markers
    before it left. *)
Theorem X21_rejected_command_not_run (cwd : jsstring) (World : Type)
    (env_PATH env_HOME : option jsstring)
    (execFile : World -> jsstring -> list jsstring -> ExecOptions
                -> completion (jsstring * jsstring) * World)
    (content : jsstring) (options : BashOptions) (w w1 : World)
    (before after : list (jsstring * jsstring))
    (fullMatch line partial : jsstring) (v : ValidationResult)
    (reason : jsstring) :
  command_matches None 0 content = before ++ (fullMatch, line) :: after ->
  bashLoop cwd env_PATH env_HOME execFile options before (content, w)
  = (Ok partial, w1) ->
  validateCommand (trim line) = Ok v ->
  allowed v = false -> error v = Some reason ->
  processBashCommands cwd env_PATH env_HOME execFile content options w
  = (Throw (Error (js "Command not allowed: " ++ trim line ++ js " - "
                     ++ reason)), w1).
Proof.
  intros Hm Hb Hv Ha Hr.
  eapply processBashCommands_abort; [| exact Hm | exact Hb |].
  - destruct content; [|reflexivity]. now destruct before.
  - unfold bashMarker. now rewrite Hv, Ha, Hr.
Qed.

Lemma X21_rejected_command_not_run_witness :
  processBashCommands Example.cwd Example.env_PATH Example.env_HOME
    Example.execFile
    (js "!echo hi" ++ [Ch.LF] ++ js "!echo $(id)" ++ [Ch.LF] ++ js "!echo no")
    Example.options 0
  = (Throw (Error (js "Command not allowed: echo $(id) - Shell operators (&&, ||, |, ;, etc.) are not allowed")),
     1).
Proof.
  apply (X21_rejected_command_not_run Example.cwd nat Example.env_PATH
           Example.env_HOME Example.execFile
           (js "!echo hi" ++ [Ch.LF] ++ js "!echo $(id)" ++ [Ch.LF]
              ++ js "!echo no")
           Example.options 0 1
           [(js "!echo hi", js "echo hi")]
           [(Ch.LF :: js "!echo no", js "echo no")]
           (Ch.LF :: js "!echo $(id)") (js "echo $(id)")
           (js "hi" ++ [Ch.LF; Ch.LF] ++ js "!echo $(id)" ++ [Ch.LF]
              ++ js "!echo no")
           (mkValidation false [] []
              (Some (js "Shell operators (&&, ||, |, ;, etc.) are not allowed")))
           (js "Shell operators (&&, ||, |, ;, etc.) are not allowed"));
    reflexivity.
Defined.

(** ** What the two marker expressions match *)

Lemma takeWhile_cons_inv (f : code_unit -> bool) (s : jsstring)
    (c : code_unit) (r : jsstring) :
  takeWhile f s = c :: r -> forallb f (c :: r) = true.
Proof. intros <-. apply forallb_takeWhile. Qed.

(** X22: every match of the include expression has a name that is not
    empty and holds no white space, and its whole text is the at sign and
    the name, after one white-space code unit or after none. *)
Theorem X22_include_matches_shape (content : jsstring)
    (prev : option code_unit) (skip : nat) :
  Forall (fun m : jsstring * jsstring =>
            is_empty (snd m) = false
            /\ forallb notWhiteSpace (snd m) = true
            /\ (fst m = Ch.AT :: snd m
                \/ exists c, isWhiteSpace c = true
                             /\ fst m = c :: Ch.AT :: snd m))
         (include_matches prev skip content).
Proof.
  revert prev skip; induction content as [|c t IH]; intros prev skip;
    [constructor|].
  cbn [include_matches]. destruct skip as [|k]; [|apply IH].
  destruct (match prev with
            | Some p => isLineTerminator p
            | None => true
            end && N.eqb c Ch.AT) eqn:E1.
  - destruct (takeWhile notWhiteSpace t) as [|n ns] eqn:Hn.
    + destruct t as [|d t']; [apply IH|].
      apply andb_true_iff in E1 as [_ Hc]. apply N.eqb_eq in Hc. subst c.
      change (isWhiteSpace Ch.AT) with false. cbn [andb]. apply IH.
    + constructor; [|apply IH]. cbn [fst snd].
      apply andb_true_iff in E1 as [_ Hc]. apply N.eqb_eq in Hc. subst c.
      repeat split; [now apply (takeWhile_cons_inv notWhiteSpace t) | now left].
  - destruct t as [|d t']; [apply IH|].
    destruct (isWhiteSpace c && N.eqb d Ch.AT) eqn:E2; [|apply IH].
    destruct (takeWhile notWhiteSpace t') as [|n ns] eqn:Hn; [apply IH|].
    constructor; [|apply IH]. cbn [fst snd].
    apply andb_true_iff in E2 as [Hc _].
    repeat split; [now apply (takeWhile_cons_inv notWhiteSpace t')|].
    right. now exists c.
Qed.

Lemma command_line_shape (t line : jsstring) :
  command_line t = Some line ->
  is_empty line = false
  /\ forallb (fun c => negb (isLineTerminator c)) line = true.
Proof.
  unfold command_line.
  destruct (takeWhile (fun c => negb (isLineTerminator c)) t) as [|c r] eqn:E;
    [discriminate|].
  intros H.
  assert (line = c :: r).
  { destruct (skipn (length (c :: r)) t) as [|x xs];
      [now injection H|].
    destruct (N.eqb x Ch.LF); [now injection H | discriminate]. }
  subst line. split; [reflexivity|].
  now apply (takeWhile_cons_inv _ t).
Qed.

(** X23: every match of the command expression has a command line that is
    not empty and holds no line terminator, and its whole text is the
    exclamation mark and the line, after a line feed or after nothing. *)
Theorem X23_command_matches_shape (content : jsstring)
    (prev : option code_unit) (skip : nat) :
  Forall (fun m : jsstring * jsstring =>
            is_empty (snd m) = false
            /\ forallb (fun c => negb (isLineTerminator c)) (snd m) = true
            /\ (fst m = Ch.BANG :: snd m
                \/ fst m = Ch.LF :: Ch.BANG :: snd m))
         (command_matches prev skip content).
Proof.
  revert prev skip; induction content as [|c t IH]; intros prev skip;
    [constructor|].
  cbn [command_matches]. destruct skip as [|k]; [|apply IH].
  destruct (match prev with Some _ => false | None => true end
            && N.eqb c Ch.BANG) eqn:E1.
  - apply andb_true_iff in E1 as [_ Hc]. apply N.eqb_eq in Hc. subst c.
    destruct (command_line t) as [line|] eqn:Hl.
    + constructor; [|apply IH]. cbn [fst snd].
      destruct (command_line_shape t line Hl) as [H1 H2].
      repeat split; [assumption.. | now left].
    + destruct t as [|d t']; [apply IH|].
      change (N.eqb Ch.BANG Ch.LF) with false. cbn [andb]. apply IH.
  - destruct t as [|d t']; [apply IH|].
    destruct (N.eqb c Ch.LF && N.eqb d Ch.BANG) eqn:E2; [|apply IH].
    destruct (command_line t') as [line|] eqn:Hl; [|apply IH].
    constructor; [|apply IH]. cbn [fst snd].
    apply andb_true_iff in E2 as [Hc _]. apply N.eqb_eq in Hc. subst c.
    destruct (command_line_shape t' line Hl) as [H1 H2].
    repeat split; [assumption.. | now right].
Qed.

(** ** The file tree: filtering and flattening *)

Module FileTreeFacts.
Import FileTree.

(** Induction on an entry, with the property known for its children. *)
Lemma item_induction (P : item -> Prop) :
  (forall name path type children,
      match children with
      | Some cs => Forall P cs
      | None => True
      end ->
      P (Item name path type children)) ->
  forall it, P it.
Proof.
  intros H. fix IH 1. intros [name path type children]. apply H.
  destruct children as [cs|]; [|exact I].
  induction cs as [|c cs IHcs]; constructor; [apply IH | exact IHcs].
Qed.

Section LowerCase.
Variable toLowerCase : jsstring -> jsstring.

Local Abbreviation filterItem' := (filterItem toLowerCase).
Local Abbreviation filterFiles' := (filterFiles toLowerCase).

(** The callback, with its inner loop read as [filterFiles]. *)
Lemma filterItem_eq (query name path type : jsstring)
    (children : option (list item)) :
  filterItem' query (Item name path type children)
  = let filteredChildren :=
      if isDirectory type then
        match children with
        | Some cs => filterFiles' cs query
        | None => []
        end
      else [] in
    if str_includes (toLowerCase name) query
       || negb (Nat.eqb (length filteredChildren) 0)
    then Some (Item name path type (Some filteredChildren))
    else None.
Proof.
  cbn [filterItem]. destruct (isDirectory type); [|reflexivity].
  destruct children as [cs|]; [|reflexivity].
  assert (E : (fix filterList (l : list item) : list item :=
                 match l with
                 | [] => []
                 | c :: rest =>
                     match filterItem' query c with
                     | Some c' => c' :: filterList rest
                     | None => filterList rest
                     end
                 end) cs = filterFiles' cs query).
  { induction cs as [|c cs IH]; [reflexivity|].
    cbn [filterFiles]. now rewrite IH. }
  now rewrite E.
Qed.

Lemma traverseItem_eq (name path type : jsstring)
    (children : option (list item)) :
  traverseItem (Item name path type children)
  = path :: (if isDirectory type then
               match children with
               | Some cs => getAllFilePaths cs
               | None => []
               end
             else []).
Proof.
  cbn [traverseItem]. destruct (isDirectory type); [|reflexivity].
  now destruct children.
Qed.

Lemma filterFiles_idem_list (query : jsstring) (items : list item) :
  Forall (fun it => forall it', filterItem' query it = Some it' ->
                                filterItem' query it' = Some it') items ->
  filterFiles' (filterFiles' items query) query = filterFiles' items query.
Proof.
  induction 1 as [|it items Hit _ IH]; [reflexivity|].
  cbn [filterFiles]. destruct (filterItem' query it) as [it'|] eqn:E;
    [|exact IH].
  cbn [filterFiles]. now rewrite (Hit it' eq_refl), IH.
Qed.

Lemma filterItem_idem (query : jsstring) (it it' : item) :
  filterItem' query it = Some it' -> filterItem' query it' = Some it'.
Proof.
  revert it'. induction it as [name path type children IH] using item_induction.
  intros it'. rewrite filterItem_eq. cbv zeta.
  destruct (str_includes (toLowerCase name) query
            || negb (Nat.eqb (length
                 (if isDirectory type
                  then match children with
                       | Some cs => filterFiles' cs query
                       | None => []
                       end
                  else [])) 0)) eqn:Hkeep; [|discriminate].
  intros [= <-]. rewrite filterItem_eq. cbv zeta.
  destruct (isDirectory type).
  - destruct children as [cs|].
    + rewrite (filterFiles_idem_list query cs IH). now rewrite Hkeep.
    + cbn [filterFiles]. now rewrite Hkeep.
  - now rewrite Hkeep.
Qed.

Lemma filterFiles_idempotent (query : jsstring) (items : list item) :
  filterFiles' (filterFiles' items query) query = filterFiles' items query.
Proof.
  apply filterFiles_idem_list. apply Forall_forall. intros it _ it'.
  apply filterItem_idem.
Qed.

Lemma filterFiles_paths_list (query : jsstring) (items : list item) :
  Forall (fun it => forall it', filterItem' query it = Some it' ->
                                incl (traverseItem it') (traverseItem it))
         items ->
  incl (getAllFilePaths (filterFiles' items query)) (getAllFilePaths items).
Proof.
  induction 1 as [|it items Hit _ IH]; [apply incl_refl|].
  cbn [filterFiles getAllFilePaths].
  destruct (filterItem' query it) as [it'|] eqn:E.
  - cbn [getAllFilePaths]. apply incl_app.
    + apply incl_appl. now apply Hit.
    + now apply incl_appr.
  - now apply incl_appr.
Qed.

Lemma filterItem_paths (query : jsstring) (it it' : item) :
  filterItem' query it = Some it' ->
  incl (traverseItem it') (traverseItem it).
Proof.
  revert it'. induction it as [name path type children IH] using item_induction.
  intros it'. rewrite filterItem_eq. cbv zeta.
  destruct (str_includes (toLowerCase name) query || _); [|discriminate].
  intros [= <-]. rewrite !traverseItem_eq.
  destruct (isDirectory type); [|apply incl_refl].
  destruct children as [cs|]; [|apply incl_refl].
  apply incl_cons; [now left|]. apply incl_tl.
  now apply filterFiles_paths_list.
Qed.

Lemma filterFiles_paths (query : jsstring) (items : list item) :
  incl (getAllFilePaths (filterFiles' items query)) (getAllFilePaths items).
Proof.
  apply filterFiles_paths_list. apply Forall_forall. intros it _ it'.
  apply filterItem_paths.
Qed.

End LowerCase.
End FileTreeFacts.

Module FileTreeCases.
Import FileTree FileTreeFacts.

Section LowerCase.
Variable toLowerCase : jsstring -> jsstring.

Lemma str_includes_empty (s : jsstring) : str_includes s [] = true.
Proof. now destruct s. Qed.

Lemma filterFiles_all_list (items : list item) :
  Forall (fun it => exists it', filterItem toLowerCase [] it = Some it'
                                /\ traverseItem it' = traverseItem it) items ->
  getAllFilePaths (filterFiles toLowerCase items []) = getAllFilePaths items.
Proof.
  induction 1 as [|it items (it' & E & Hp) _ IH]; [reflexivity|].
  cbn [filterFiles getAllFilePaths]. rewrite E.
  cbn [getAllFilePaths]. now rewrite Hp, IH.
Qed.

Lemma filterItem_all (it : item) :
  exists it', filterItem toLowerCase [] it = Some it'
              /\ traverseItem it' = traverseItem it.
Proof.
  induction it as [name path type children IH] using item_induction.
  rewrite filterItem_eq. cbv zeta. rewrite str_includes_empty. cbn [orb].
  eexists. split; [reflexivity|]. rewrite !traverseItem_eq.
  destruct (isDirectory type); [|reflexivity].
  destruct children as [cs|]; [|reflexivity].
  now rewrite (filterFiles_all_list cs IH).
Qed.

End LowerCase.

Lemma code_not_image (ext : jsstring) :
  includes codeExtensions ext = true -> includes imageExtensions ext = false.
Proof.
  intros H. apply includes_In in H. unfold codeExtensions in H.
  cbn [map In] in H.
  repeat (destruct H as [<- | H]; [reflexivity|]). contradiction.
Qed.

Lemma doc_not_image (ext : jsstring) :
  includes docExtensions ext = true -> includes imageExtensions ext = false.
Proof.
  intros H. apply includes_In in H. unfold docExtensions in H.
  cbn [map In] in H.
  repeat (destruct H as [<- | H]; [reflexivity|]). contradiction.
Qed.

End FileTreeCases.

(** X24: filtering a filtered tree again with the same query changes
    nothing. *)
Theorem X24_filterFiles_idempotent (toLowerCase : jsstring -> jsstring)
    (items : list FileTree.item) (query : jsstring) :
  FileTree.filterFiles toLowerCase
    (FileTree.filterFiles toLowerCase items query) query
  = FileTree.filterFiles toLowerCase items query.
Proof. apply FileTreeFacts.filterFiles_idempotent. Qed.

(** X25: every path that [getAllFilePaths] collects from the filtered tree
    is a path it collects from the tree that was filtered: filtering
    invents no entry. *)
Theorem X25_filterFiles_paths (toLowerCase : jsstring -> jsstring)
    (items : list FileTree.item) (query : jsstring) :
  incl (FileTree.getAllFilePaths (FileTree.filterFiles toLowerCase items query))
       (FileTree.getAllFilePaths items).
Proof. apply FileTreeFacts.filterFiles_paths. Qed.

(** X26: the empty query keeps every entry: the filtered tree has the same
    paths, in the same order. *)
Theorem X26_filterFiles_empty_query (toLowerCase : jsstring -> jsstring)
    (items : list FileTree.item) :
  FileTree.getAllFilePaths (FileTree.filterFiles toLowerCase items [])
  = FileTree.getAllFilePaths items.
Proof.
  apply FileTreeCases.filterFiles_all_list. apply Forall_forall.
  intros it _. apply FileTreeCases.filterItem_all.
Qed.

(** X27: [getFileIcon] shows the purple file icon exactly for the names
    that [isImageFile] accepts: the three extension lists do not overlap, so
    the order of the tests never hides an image. *)
Theorem X27_image_icon (toLowerCase : jsstring -> jsstring)
    (filename : jsstring) :
  FileTree.getFileIcon toLowerCase filename = FileTree.FilePurple
  <-> FileTree.isImageFile toLowerCase filename = true.
Proof.
  unfold FileTree.getFileIcon, FileTree.isImageFile.
  set (ext := FileTree.extension toLowerCase filename).
  destruct (includes FileTree.codeExtensions ext) eqn:Hc.
  - rewrite (FileTreeCases.code_not_image ext Hc). split; discriminate.
  - destruct (includes FileTree.docExtensions ext) eqn:Hd.
    + rewrite (FileTreeCases.doc_not_image ext Hd). split; discriminate.
    + destruct (includes FileTree.imageExtensions ext); split;
        (reflexivity || discriminate).
Qed.

(** ** White space around a command line *)

Lemma dropWhile_head (f : code_unit -> bool) (s : jsstring) (c : code_unit)
    (t : jsstring) :
  dropWhile f s = c :: t -> f c = false.
Proof.
  induction s as [|x s IH]; [discriminate|].
  cbn [dropWhile]. destruct (f x) eqn:E; [exact IH|].
  intros [= <- _]. exact E.
Qed.

Lemma dropWhile_stable (f : code_unit -> bool) (s : jsstring) :
  dropWhile f (dropWhile f s) = dropWhile f s.
Proof.
  destruct (dropWhile f s) as [|c t] eqn:E; [reflexivity|].
  cbn [dropWhile]. now rewrite (dropWhile_head f s c t E).
Qed.

Lemma dropWhile_suffix (f : code_unit -> bool) (s : jsstring) :
  exists x, s = x ++ dropWhile f s.
Proof.
  induction s as [|c s [x IH]]; [now exists []|].
  cbn [dropWhile]. destruct (f c); [|now exists []].
  exists (c :: x). cbn [app]. now rewrite <- IH.
Qed.

(** Trimming a trimmed text changes nothing. *)
Lemma trim_idempotent (s : jsstring) : trim (trim s) = trim s.
Proof.
  unfold trim.
  set (a := dropWhile isWhiteSpace s).
  destruct (dropWhile isWhiteSpace (rev a)) as [|c t] eqn:Er; [reflexivity|].
  assert (Hc : isWhiteSpace c = false)
    by exact (dropWhile_head isWhiteSpace (rev a) c t Er).
  assert (Hb : dropWhile isWhiteSpace (rev (c :: t)) = rev (c :: t)).
  { destruct (dropWhile_suffix isWhiteSpace (rev a)) as [x Hx].
    rewrite Er in Hx. apply (f_equal (@rev code_unit)) in Hx.
    rewrite rev_involutive, rev_app_distr in Hx.
    destruct (rev (c :: t)) as [|h b'] eqn:Eb.
    - reflexivity.
    - cbn [dropWhile]. cbn [app] in Hx.
      assert (Hh : isWhiteSpace h = false).
      { apply (dropWhile_head isWhiteSpace s h (b' ++ rev x)).
        fold a. exact Hx. }
      now rewrite Hh. }
  rewrite Hb, rev_involutive. cbn [dropWhile]. now rewrite Hc.
Qed.

(** X28: [validateCommand] gives the same result for a command line and
    for the line with its leading and trailing white space removed, so the
    trimming that [processBashCommands] does before the call changes no
    verdict. *)
Theorem X28_validateCommand_trim (s : jsstring) :
  validateCommand (trim s) = validateCommand s.
Proof. unfold validateCommand. now rewrite trim_idempotent. Qed.

(** ** Depth only ever refuses *)

Lemma for_of_success_transfer {A S : Type}
    (step1 step2 : S -> A -> completion S) (items : list A) (acc r : S) :
  (forall acc x r', step1 acc x = Ok r' -> step2 acc x = Ok r') ->
  for_of step1 items acc = Ok r -> for_of step2 items acc = Ok r.
Proof.
  intros H. revert acc; induction items as [|x items IH]; intros acc;
    [trivial|].
  cbn [for_of]. destruct (step1 acc x) as [acc1|e] eqn:E; [|discriminate].
  rewrite (H acc x acc1 E). cbn [bind]. apply IH.
Qed.

Section DepthFacts.

Variable cwd : jsstring.
Variable readFile : jsstring -> completion jsstring.

Local Abbreviation includes := (processFileIncludes cwd readFile).

Lemma includeMarker_success_transfer
    (recurse1 recurse2 : jsstring -> completion jsstring)
    (basePath partial : jsstring) (m : jsstring * jsstring) (r : jsstring) :
  (forall fc pc, recurse1 fc = Ok pc -> recurse2 fc = Ok pc) ->
  includeMarker cwd readFile recurse1 basePath partial m = Ok r ->
  includeMarker cwd readFile recurse2 basePath partial m = Ok r.
Proof.
  intros H. unfold includeMarker. destruct m as [fullMatch filename].
  destruct (negb (isPathSafe cwd filename basePath)); [discriminate|].
  destruct (readFile (Path.resolve cwd [basePath; filename])) as [fc|e];
    cbn [bind try_catch]; [|discriminate].
  destruct (recurse1 fc) as [pc|e] eqn:E; cbn [bind try_catch]; [|discriminate].
  now rewrite (H fc pc E).
Qed.

Lemma processFileIncludes_shallower_bounded (n : nat) :
  forall (content basePath : jsstring) (depth : nat) (r : jsstring),
    MAX_INCLUDE_DEPTH - depth <= n ->
    includes content basePath (S depth) = Ok r ->
    includes content basePath depth = Ok r.
Proof.
  induction n as [|n IH]; intros content basePath depth r Hn;
    rewrite !processFileIncludes_eq;
    destruct (is_empty content); trivial.
  - replace (MAX_INCLUDE_DEPTH <=? S depth) with true
      by (symmetry; apply Nat.leb_le; lia).
    discriminate.
  - destruct (MAX_INCLUDE_DEPTH <=? S depth) eqn:E1; [discriminate|].
    apply Nat.leb_gt in E1.
    replace (MAX_INCLUDE_DEPTH <=? depth) with false
      by (symmetry; apply Nat.leb_gt; lia).
    destruct (include_matches None 0 content) as [|m ms]; [trivial|].
    apply for_of_success_transfer. intros acc x r'.
    apply includeMarker_success_transfer. intros fc pc.
    replace (S depth + 1) with (S (depth + 1)) by lia.
    apply IH. lia.
Qed.

End DepthFacts.

(** X29: a text that resolves when its includes start one level deeper
    resolves to the same result from the level above: the depth is only
    ever a reason to refuse, never changes what is put in. *)
Theorem X29_shallower_resolves_alike (cwd : jsstring)
    (readFile : jsstring -> completion jsstring)
    (content basePath : jsstring) (depth : nat) (r : jsstring) :
  processFileIncludes cwd readFile content basePath (S depth) = Ok r ->
  processFileIncludes cwd readFile content basePath depth = Ok r.
Proof.
  apply (processFileIncludes_shallower_bounded cwd readFile
           (MAX_INCLUDE_DEPTH - depth)).
  lia.
Qed.

Lemma X29_shallower_resolves_alike_witness :
  processFileIncludes Example.cwd Example.readFile (js "see @q.md")
    Example.base 1 = Ok (js "see Q")
  /\ processFileIncludes Example.cwd Example.readFile (js "see @q.md")
       Example.base 0 = Ok (js "see Q").
Proof.
  assert (H : processFileIncludes Example.cwd Example.readFile (js "see @q.md")
                Example.base 1 = Ok (js "see Q")) by reflexivity.
  split; [exact H|].
  exact (X29_shallower_resolves_alike _ _ _ _ _ _ H).
Defined.
